(** * Raster wrangling kernel of the climate-risk tutorial notebooks

    A shallow embedding of the Python utilities that recur in the notebooks
    ([relabel_pixels], [search_to_dataframe], the stacking loop, the
    mosaicking cells) together with the library primitives they call, and
    the properties the specification states about them. *)

From Stdlib Require Import ZArith List Bool Ascii String Lia.
From Stdlib Require Import QArith Qround.
From Stdlib Require Import Floats.
From stdpp Require Import base list sorting strings gmap.

Local Open Scope Z_scope.

(** ** Python results: a value or a raised exception *)

Inductive exn : Type :=
  | AssertionError (msg : string)
  | OverflowError
  | ValueError
  | IndexError
  | ShapeMismatchError.

Inductive result (A : Type) : Type :=
  | Ok (a : A)
  | Raise (e : exn).
Arguments Ok {A} a.
Arguments Raise {A} e.

#[global] Instance result_ret : MRet result := λ A, Ok.
#[global] Instance result_bind : MBind result := λ A B k r,
  match r with
  | Ok a => k a
  | Raise e => Raise e
  end.

#[global] Instance result_fmap : FMap result := λ A B g r,
  match r with
  | Ok a => Ok (g a)
  | Raise e => Raise e
  end.

(** [assert cond, msg] *)
Definition py_assert (cond : bool) (msg : string) : result unit :=
  if cond then Ok tt else Raise (AssertionError msg).

(** ** NumPy primitives used by [relabel_pixels]

    The category arrays have dtype [uint8]: an element is a [Z] in
    [0, 256). *)

Definition in_uint8 (z : Z) : bool := (0 <=? z) && (z <? 256).

Definition wrap_uint8 (z : Z) : Z := z mod 256.

Module np.

(** [np.array(values, dtype=np.uint8)] on a list of Python ints.  A Python
    int outside [0, 256) does not convert (NumPy 2 raises OverflowError). *)
Definition array_uint8 (values : list Z) : result (list Z) :=
  if forallb in_uint8 values then Ok values else Raise OverflowError.

(** [np.sort]: ascending, duplicates kept. *)
Definition sort (a : list Z) : list Z := merge_sort Z.le a.

(** [np.unique]: the sorted distinct elements. *)
Definition unique (a : list Z) : list Z := merge_sort Z.le (remove_dups a).

(** [a[np.where(a != x)]] *)
Definition where_ne (a : list Z) (x : Z) : list Z :=
  List.filter (fun v => negb (v =? x)) a.

(** [np.arange(start=start, stop=start+n, dtype=uint8)].  The first two
    elements are stored by conversion of the Python ints [start] and
    [start+1]; the remaining ones are filled by uint8 arithmetic
    [start + i*delta], which wraps around. *)
Definition arange_uint8 (start : Z) (n : nat) : result (list Z) :=
  match n with
  | O => Ok []
  | S O => if in_uint8 start then Ok [start] else Raise OverflowError
  | _ =>
      if in_uint8 start && in_uint8 (start + 1)
      then Ok (List.map (fun i => wrap_uint8 (start + Z.of_nat i)) (seq 0 n))
      else Raise OverflowError
  end.

(** [x in a] *)
Definition contains (x : Z) (a : list Z) : bool := existsb (Z.eqb x) a.

End np.

(** ** Python dictionaries with integer keys

    A [dict] keeps its keys in insertion order, and storing under a key
    already present replaces the value in place. *)

Abbreviation pydict := (list (Z * Z)).

Fixpoint dict_set (d : pydict) (k v : Z) : pydict :=
  match d with
  | [] => [(k, v)]
  | (k', v') :: d' =>
      if k' =? k then (k', v) :: d' else (k', v') :: dict_set d' k v
  end.

(** [dict(pairs)] *)
Definition dict_of (pairs : list (Z * Z)) : pydict :=
  fold_left (fun d kv => dict_set d (fst kv) (snd kv)) pairs [].

Fixpoint dict_get (d : pydict) (k : Z) : option Z :=
  match d with
  | [] => None
  | (k', v') :: d' => if k' =? k then Some v' else dict_get d' k
  end.

Definition dict_keys (d : pydict) : list Z := List.map fst d.
Definition dict_values (d : pydict) : list Z := List.map snd d.

(** ** Rasters: a two-dimensional grid of integer pixels *)

Abbreviation DataArray := (list (list Z)).

(** [data.where(data != old, other=new)]: elementwise, shape preserved. *)
Definition da_where_ne (data : DataArray) (old new : Z) : DataArray :=
  List.map (List.map (fun p => if p =? old then new else p)) data.

(** [data.values.flatten()] *)
Definition da_flatten (data : DataArray) : list Z := List.concat data.

(** [data[i, j]] *)
Definition da_get (data : DataArray) (i j : nat) : option Z :=
  match data !! i with
  | Some row => row !! j
  | None => None
  end.

(** ** relabel_pixels *)

(** The loop
<<
    for old, new in relabel.items():
        if new==old: continue
        new_data = new_data.where(new_data!=old, other=new)
>> *)
Definition relabel_step (new_data : DataArray) (item : Z * Z) : DataArray :=
  let '(old, new) := item in
  if new =? old then new_data else da_where_ne new_data old new.

Definition relabel_loop (new_data : DataArray) (relabel : pydict) : DataArray :=
  fold_left relabel_step relabel new_data.

(** The utility itself:
<<
    def relabel_pixels(data, values, null_val=255, transparent_val=0,
                       replace_null=True, start=0):
        new_data = data.copy(deep=True)
        if values:
            values = np.sort(np.array(values, dtype=np.uint8))
        else:
            values = np.sort(np.unique(data.values.flatten()))
        if replace_null:
            new_data = new_data.where(new_data!=null_val, other=transparent_val)
            values = values[np.where(values!=null_val)]
        n_values = len(values)
        new_values = np.arange(start=start, stop=start+n_values, dtype=values.dtype)
        assert transparent_val in new_values, f"{transparent_val=} not in {new_values}"
        relabel = dict(zip(values, new_values))
        for old, new in relabel.items():
            if new==old: continue
            new_data = new_data.where(new_data!=old, other=new)
        return new_data, relabel
>>
    [values] is a Python list (an empty one is false); the rasters are 8-bit
    unsigned, so [values.dtype] is uint8 on both branches.  The message of
    the assertion is abbreviated. *)
Definition relabel_pixels (data : DataArray) (values : list Z)
    (null_val transparent_val : Z) (replace_null : bool) (start : Z)
  : result (DataArray * pydict) :=
  let new_data := data in
  values ← match values with
           | _ :: _ => a ← np.array_uint8 values; Ok (np.sort a)
           | [] => Ok (np.sort (np.unique (da_flatten data)))
           end;
  let new_data :=
    if replace_null then da_where_ne new_data null_val transparent_val
    else new_data in
  let values :=
    if replace_null then np.where_ne values null_val else values in
  let n_values := length values in
  new_values ← np.arange_uint8 start n_values;
  _ ← py_assert (np.contains transparent_val new_values)
        "transparent_val not in new_values";
  let relabel := dict_of (combine values new_values) in
  let new_data := relabel_loop new_data relabel in
  Ok (new_data, relabel).

(** The notebooks' defaults: [null_val=255, transparent_val=0,
    replace_null=True, start=0]. *)
Definition relabel_pixels_default (data : DataArray) (values : list Z) :=
  relabel_pixels data values 255 0 true 0.

(** Applying a dictionary to every pixel (pixels that are not keys are
    kept), and the inverse dictionary. *)
Definition dict_apply (d : pydict) (data : DataArray) : DataArray :=
  List.map (List.map (fun p => default p (dict_get d p))) data.

Definition dict_inverse (d : pydict) : pydict :=
  dict_of (List.map (fun kv => (snd kv, fst kv)) d).

(** *** Pieces of [relabel_pixels] named for the statements below *)

(** The sorted category array, before the missing code is dropped. *)
Definition sorted_codes (data : DataArray) (values : list Z) : result (list Z) :=
  match values with
  | _ :: _ => a ← np.array_uint8 values; Ok (np.sort a)
  | [] => Ok (np.sort (np.unique (da_flatten data)))
  end.

(** The category codes that remain after the missing-value collapse. *)
Definition remaining_codes (data : DataArray) (values : list Z)
    (null_val : Z) (replace_null : bool) : result (list Z) :=
  codes ← sorted_codes data values;
  Ok (if replace_null then np.where_ne codes null_val else codes).

(** The data after the missing-value collapse. *)
Definition collapse_null (data : DataArray) (null_val transparent_val : Z)
    (replace_null : bool) : DataArray :=
  if replace_null then da_where_ne data null_val transparent_val else data.

(** What the loop over [relabel.items()] does to one pixel. *)
Definition pixel_step (p : Z) (item : Z * Z) : Z :=
  let '(old, new) := item in
  if new =? old then p else if p =? old then new else p.

Definition pixel_loop (relabel : pydict) (p : Z) : Z :=
  fold_left pixel_step relabel p.

(** The labels [start, start+1, ..., start+n-1]. *)
Definition label_range (start : Z) (n : nat) : list Z :=
  List.map (fun i => start + Z.of_nat i) (seq 0 n).

(** ** search_to_dataframe

    A PySTAC search yields granules (items): an id, a dictionary of
    properties, and a dictionary of assets keyed by band name. *)

Inductive pyval : Type :=
  | PyNone
  | PyStr (s : string)
  | PyInt (n : Z).

Record Granule : Type := {
  id : string;
  properties : gmap string pyval;
  assets : list (string * string)   (* asset key, href; in the dict's order *)
}.

Record DataFrame : Type := {
  df_columns : list string;
  df_rows : list (list pyval)
}.

(** [s.split(sep)] for a one-character separator: never an empty list. *)
Fixpoint split_from (sep : ascii) (cur s : string) : list string :=
  match s with
  | EmptyString => [cur]
  | String ch rest =>
      if Ascii.eqb ch sep then cur :: split_from sep EmptyString rest
      else split_from sep (cur +:+ String ch EmptyString) rest
  end.

Definition split (s : string) (sep : ascii) : list string :=
  split_from sep EmptyString s.

(** [granule.id.split('_')[3]] *)
Definition tile_id (g : Granule) : result string :=
  match split (id g) "_" !! 3%nat with
  | Some t => Ok t
  | None => Raise IndexError
  end.

(** [g.assets[a].href] *)
Fixpoint asset_href (assets : list (string * string)) (a : string) : string :=
  match assets with
  | [] => EmptyString
  | (k, h) :: rest => if String.eqb k a then h else asset_href rest a
  end.

(** [{prop for g in granules for prop in g.properties.keys()}] *)
Definition all_props (granules : list Granule) : gset string :=
  ⋃ (List.map (fun g => dom (properties g)) granules).

(** The rows contributed by one granule: one per asset. *)
Definition granule_rows (props : list string) (g : Granule) (t : string)
  : list (list pyval) :=
  List.map (fun a =>
              List.map (fun k => default PyNone (properties g !! k)) props
              ++ [PyStr a; PyStr (asset_href (assets g) a); PyStr t])
           (List.map fst (assets g)).

(** The generator [rows], consumed in full by [pd.concat]: the tile id of
    each granule is computed when [zip] reaches it. *)
Fixpoint gen_rows (props : list string) (granules : list Granule)
  : result (list (list pyval)) :=
  match granules with
  | [] => Ok []
  | g :: gs =>
      t ← tile_id g;
      rest ← gen_rows props gs;
      Ok (granule_rows props g t ++ rest)
  end.

Module pd.

(** [pd.concat(frames, axis=0, ignore_index=True)] of one-row frames that
    share their columns: no frame at all is a ValueError. *)
Definition concat (cols : list string) (frames : list (list pyval))
  : result DataFrame :=
  match frames with
  | [] => Raise ValueError
  | _ => Ok {| df_columns := cols; df_rows := frames |}
  end.

End pd.

(** The utility itself:
<<
    def search_to_dataframe(search):
        granules = list(search.items())
        assert granules, "Error: empty list of search results"
        props = list({prop for g in granules for prop in g.properties.keys()})
        tile_ids = map(lambda granule: granule.id.split('_')[3], granules)
        rows = (([g.properties.get(k, None) for k in props] + [a, g.assets[a].href, t])
                    for g, t in zip(granules,tile_ids) for a in g.assets )
        df = pd.concat(map(lambda x: pd.DataFrame(x, index=props+['asset','href', 'tile_id']).T, rows),
                       axis=0, ignore_index=True)
        assert len(df), "Empty DataFrame"
        return df
>>
    [search] stands for the granules that [search.items()] yields. *)
Definition search_to_dataframe (search : list Granule) : result DataFrame :=
  let granules := search in
  _ ← py_assert (match granules with [] => false | _ :: _ => true end)
        "Error: empty list of search results";
  let props := elements (all_props granules) in
  rows ← gen_rows props granules;
  df ← pd.concat (props ++ ["asset"; "href"; "tile_id"]%string) rows;
  _ ← py_assert (negb (length (df_rows df) =? 0)%nat) "Empty DataFrame";
  Ok df.

(** A granule of the DSWx product with two assets. *)
Definition example_granule : Granule := {|
  id := "OPERA_L3_DSWx-HLS_T11SQA_20230801T182919Z";
  properties := {[ "eo:cloud_cover"%string := PyInt 5 ]};
  assets := [("0_B01_WTR", "https://example.org/B01_WTR.tif");
             ("0_B02_BWTR", "https://example.org/B02_BWTR.tif")]%string
|}.

(** The number of (granule, asset) pairs of a search. *)
Definition n_pairs (granules : list Granule) : nat :=
  sum_list (List.map (fun g => length (assets g)) granules).

(** ** The stacking loop

<<
    stack = []
    for timestamp, row in df.iterrows():
        data = rio.open_rasterio(row.href).squeeze()
        data = data.rename(dict(x='longitude', y='latitude'))
        del data.coords['band']
        data.coords.update({'time':timestamp})
        data.attrs = dict(description=f"OPERA DIST: VEG-DIST-STATUS", units=None)
        stack.append(data)
    stack = xr.concat(stack, dim='time')
>>
    A row of [df] is its index label (the timestamp) and its [href]. *)

Definition shape (data : DataArray) : nat * nat :=
  (length data, match data with [] => O | row :: _ => length row end).

(** The raster [rio.open_rasterio(href).squeeze()]: a two-dimensional
    array over the coordinates [y] and [x], the band axis of length one
    being squeezed away (rasters have at least two rows and two columns).
    Coordinate labels are only compared with one another, for equality
    and for order; they are integers here. *)
Record Raster : Type := {
  coord_y : list Z;
  coord_x : list Z;
  raster_values : DataArray
}.

(** *** Index alignment

    [xr.concat] is xarray's; the notebook calls it with [dim='time'] and
    every option left at its default, so the arrays are aligned along
    their other dimensions with [join='outer'] before they are laid out
    along the new one.  Alignment works dimension by dimension on the
    coordinate indexes of the arrays (pandas indexes). *)

(** [index.get_loc(label)] on an index without repeated labels *)
Fixpoint get_loc (index : list Z) (label : Z) : option nat :=
  match index with
  | [] => None
  | l :: rest => if bool_decide (l = label) then Some O else S <$> get_loc rest label
  end.

Definition is_unique (index : list Z) : bool := bool_decide (NoDup index).

(** [a.union(b)] with the default [sort=None]: [a] itself when [b] is
    empty or equal to [a], [b] when [a] is empty, the sorted labels of
    both otherwise. *)
Definition index_union (a b : list Z) : list Z :=
  if bool_decide (a = b) then a
  else match a, b with
       | _, [] => a
       | [], _ => b
       | _, _ => merge_sort Z.le (remove_dups (a ++ b))
       end.

(** The outer join of the indexes of one dimension: the unions, taken
    from the left. *)
Definition index_join (indexes : list (list Z)) : list Z :=
  match indexes with
  | [] => []
  | first :: rest => fold_left index_union rest first
  end.

(** Whether every index equals the first; only then is the dimension left
    alone. *)
Definition indexes_equal (indexes : list (list Z)) : bool :=
  match indexes with
  | [] => true
  | first :: rest => forallb (fun index => bool_decide (index = first)) rest
  end.

(** [reindex_like]: the items at the labels of [target], a missing label
    giving a missing item. *)
Definition reindex_like {A} (index target : list Z) (items : list A)
  : list (option A) :=
  List.map (fun label => i ← get_loc index label; items !! i) target.

Definition align_axis {A} (need_reindex : bool) (index target : list Z)
    (items : list A) : list (option A) :=
  if need_reindex then reindex_like index target items else List.map Some items.

Definition slice_shape (slice : list (list (option Z))) : nat * nat :=
  (length slice, match slice with [] => O | row :: _ => length row end).

Section Stacking.

Context {Timestamp : Type}.

(** The array [data] at the end of the loop body: two-dimensional over
    [latitude] and [longitude], carrying a scalar [time] coordinate. *)
Record Tagged : Type := {
  coord_time : Timestamp;
  coord_latitude : list Z;
  coord_longitude : list Z;
  data_values : DataArray
}.

(** The stacked array: the coordinate of the new [time] dimension, the
    coordinates of the two spatial dimensions and one slice per entry of
    [tags].  A pixel of a slice is a number or missing ([None], NaN). *)
Record Stack : Type := {
  tags : list Timestamp;
  stack_latitude : list Z;
  stack_longitude : list Z;
  slices : list (list (list (option Z)))
}.

(** The values of one array on the joined coordinates: rows first, then
    the columns of each row; a missing row is missing at every column. *)
Definition aligned_values (need_lat need_lon : bool) (lat lon : list Z)
    (x : Tagged) : list (list (option Z)) :=
  List.map (fun row =>
              match row with
              | Some row => align_axis need_lon (coord_longitude x) lon row
              | None => replicate (length lon) None
              end)
           (align_axis need_lat (coord_latitude x) lat (data_values x)).

(** [xr.concat(arrays, dim='time')].  No array at all is a ValueError.  A
    dimension whose indexes are not all equal is reindexed to their outer
    join, which xarray refuses (ValueError) when one of the indexes
    repeats a label.  The scalar [time] coordinates become the coordinate
    of the new dimension, in list order. *)
Definition xr_concat (arrays : list Tagged) : result Stack :=
  match arrays with
  | [] => Raise ValueError
  | _ :: _ =>
      let lats := List.map coord_latitude arrays in
      let lons := List.map coord_longitude arrays in
      let need_lat := negb (indexes_equal lats) in
      let need_lon := negb (indexes_equal lons) in
      if (need_lat && negb (forallb is_unique lats))
         || (need_lon && negb (forallb is_unique lons))
      then Raise ValueError
      else
        let lat := index_join lats in
        let lon := index_join lons in
        Ok {| tags := List.map coord_time arrays;
              stack_latitude := lat;
              stack_longitude := lon;
              slices := List.map (aligned_values need_lat need_lon lat lon) arrays |}
  end.

(** The reader [rio.open_rasterio(href).squeeze()]. *)
Variable open_rasterio : string → Raster.

(** One iteration of the loop body, threading the list [stack]. *)
Definition stack_step (stack : list Tagged) (item : Timestamp * string)
  : list Tagged :=
  let '(timestamp, href) := item in
  let data := open_rasterio href in
  let data := {| coord_time := timestamp;
                 coord_latitude := coord_y data;
                 coord_longitude := coord_x data;
                 data_values := raster_values data |} in
  stack ++ [data].

Definition build_stack (df : list (Timestamp * string)) : result Stack :=
  let stack := fold_left stack_step df [] in
  xr_concat stack.

(** The tagged array the loop body makes of one row. *)
Definition tagged_of (item : Timestamp * string) : Tagged :=
  {| coord_time := fst item;
     coord_latitude := coord_y (open_rasterio (snd item));
     coord_longitude := coord_x (open_rasterio (snd item));
     data_values := raster_values (open_rasterio (snd item)) |}.

End Stacking.

Arguments Tagged : clear implicits.
Arguments Stack : clear implicits.

(** A reader for the examples: every raster has two rows and two columns
    on one grid. *)
Definition example_reader (href : string) : Raster :=
  {| coord_y := [20; 10]; coord_x := [100; 110];
     raster_values := if String.eqb href "a.tif" then [[1; 2]; [3; 4]]
                      else [[0; 0]; [0; 255]] |}.

(** A reader whose rasters have one shape and lie on two grids, side by
    side. *)
Definition shifted_reader (href : string) : Raster :=
  if String.eqb href "a.tif"
  then {| coord_y := [20; 10]; coord_x := [100; 110];
          raster_values := [[1; 2]; [3; 4]] |}
  else {| coord_y := [20; 10]; coord_x := [120; 130];
          raster_values := [[5; 6]; [7; 8]] |}.


(** ** Mosaicking: [rasterio.merge.merge]

<<
    mosaicked_img, mosaic_transform = merge(b01_wtr.href)
>>
    The notebooks call [merge] with every optional argument left at its
    default and refer to the rasterio.merge documentation for the
    algorithm; the definitions below follow that documentation.  The
    rasters of one call share their coordinate reference system and
    resolution, so each is placed on one common pixel lattice by the
    lattice position of its upper-left pixel.  [nodata] is the value a file
    declares for missing pixels (255 for the OPERA layers). *)

Record RasterFrame : Type := {
  row_off : Z;
  col_off : Z;
  nodata : Z;
  pixels : DataArray
}.

Definition height (f : RasterFrame) : Z := Z.of_nat (fst (shape (pixels f))).
Definition width (f : RasterFrame) : Z := Z.of_nat (snd (shape (pixels f))).

(** The pixel of [f] at lattice position [(r, c)], if [f] covers it. *)
Definition frame_get (f : RasterFrame) (r c : Z) : option Z :=
  if (row_off f <=? r) && (col_off f <=? c)
  then da_get (pixels f) (Z.to_nat (r - row_off f)) (Z.to_nat (c - col_off f))
  else None.

Record Mosaic : Type := {
  m_row_off : Z;
  m_col_off : Z;
  m_pixels : DataArray
}.

Definition mosaic_get (m : Mosaic) (r c : Z) : option Z :=
  frame_get {| row_off := m_row_off m; col_off := m_col_off m;
               nodata := 0; pixels := m_pixels m |} r c.

(** rasterio's [method] argument: ['first'] (reverse painting), which is
    the default, or ['last'] (paint valid new on top of existing). *)
Inductive merge_method : Type := method_first | method_last.

(** The pixelwise effect of rasterio's copy functions.  [copy_first] writes
    where the destination still holds the fill value and the source pixel is
    valid; [copy_last] writes wherever the source pixel is valid. *)
Definition copy_first (nodataval merged new : Z) (new_valid : bool) : Z :=
  if (merged =? nodataval) && new_valid then new else merged.

Definition copy_last (nodataval merged new : Z) (new_valid : bool) : Z :=
  if new_valid then new else merged.

Definition copyto (method : merge_method) : Z → Z → Z → bool → Z :=
  match method with
  | method_first => copy_first
  | method_last => copy_last
  end.

(** Copying one source into the destination grid whose upper-left pixel is
    at lattice position [(top, left)]. *)
Definition paint_pixel (method : merge_method) (nodataval r c : Z)
    (merged : Z) (src : RasterFrame) : Z :=
  match frame_get src r c with
  | Some new => copyto method nodataval merged new (negb (new =? nodata src))
  | None => merged
  end.

Definition paint (method : merge_method) (nodataval top left : Z)
    (dest : DataArray) (src : RasterFrame) : DataArray :=
  imap (fun i row =>
          imap (fun j merged =>
                  paint_pixel method nodataval
                    (top + Z.of_nat i) (left + Z.of_nat j) merged src) row) dest.

Definition union_top (fs : list RasterFrame) (z : Z) : Z :=
  fold_left (fun acc f => Z.min acc (row_off f)) fs z.
Definition union_left (fs : list RasterFrame) (z : Z) : Z :=
  fold_left (fun acc f => Z.min acc (col_off f)) fs z.
Definition union_bottom (fs : list RasterFrame) (z : Z) : Z :=
  fold_left (fun acc f => Z.max acc (row_off f + height f)) fs z.
Definition union_right (fs : list RasterFrame) (z : Z) : Z :=
  fold_left (fun acc f => Z.max acc (col_off f + width f)) fs z.

(** [merge(sources, method=...)]: the output covers the union of the
    sources' extents, is filled with the first source's nodata value, and
    the sources are copied into it in the order given. *)
Definition merge_with (method : merge_method) (sources : list RasterFrame)
  : result Mosaic :=
  match sources with
  | [] => Raise IndexError
  | first :: _ =>
      let nodataval := nodata first in
      let top := union_top sources (row_off first) in
      let left := union_left sources (col_off first) in
      let bottom := union_bottom sources (row_off first + height first) in
      let right := union_right sources (col_off first + width first) in
      let dest :=
        replicate (Z.to_nat (bottom - top))
                  (replicate (Z.to_nat (right - left)) nodataval) in
      Ok {| m_row_off := top; m_col_off := left;
            m_pixels := fold_left (paint method nodataval top left) sources dest |}
  end.

(** [merge(sources)] as the notebooks call it. *)
Definition merge (sources : list RasterFrame) : result Mosaic :=
  merge_with method_first sources.

(** A pixel of a frame is valid when the frame covers the position with a
    value other than its nodata value. *)
Definition valid_at (f : RasterFrame) (r c : Z) : bool :=
  match frame_get f r c with
  | Some v => negb (v =? nodata f)
  | None => false
  end.

(** The value of the first of two frames that is valid at a position, the
    fill value when neither is. *)
Definition first_valid (f1 f2 : RasterFrame) (r c : Z) : Z :=
  if valid_at f1 r c then default (nodata f1) (frame_get f1 r c)
  else if valid_at f2 r c then default (nodata f1) (frame_get f2 r c)
  else nodata f1.

(** Two frames overlap at a position when both hold a valid pixel there. *)
Definition overlap_at (f1 f2 : RasterFrame) (r c : Z) : bool :=
  valid_at f1 r c && valid_at f2 r c.

(** Two overlapping one-row tiles. *)
Definition tile_A : RasterFrame :=
  {| row_off := 0; col_off := 0; nodata := 255; pixels := [[10; 11]] |}.
Definition tile_B : RasterFrame :=
  {| row_off := 0; col_off := 1; nodata := 255; pixels := [[20; 21]] |}.

(** ** Coordinate arrays of a mosaic

<<
    height, width = mosaicked_img.shape[1:]
    bounds = array_bounds(height, width, mosaic_transform)
    longitude = np.arange(bounds[0], bounds[2], mosaic_transform[0])
    latitude = np.arange(bounds[3], bounds[1], mosaic_transform[4])
>>
    and the next code cell wraps the mosaic and the two arrays:
<<
    raster = xr.DataArray(
            data=mosaicked_img,
            dims=["band", "latitude", "longitude"],
            coords=dict(
                longitude=(["longitude"], longitude),
                latitude=(["latitude"], latitude),
            ),
            attrs=dict(description="OPERA DSWx B01", units=None),
        )
>>
    The arithmetic is Python's [float], IEEE 754 binary64.  The cells are
    written once over a number interface whose instance [float_Num] is
    what Python computes with; the instance [Q_Num] of the rationals
    serves to compare with exact arithmetic only. *)

Class Num (R : Type) : Type := {
  nadd : R → R → R;
  nsub : R → R → R;
  nmul : R → R → R;
  ndiv : R → R → R;
  nleb : R → R → bool;
  is_zero : R → bool;
  of_int : Z → R;
  (** [ceil] of a finite number; [None] for an infinity or a NaN *)
  nceil : R → option Z
}.

(** The ceiling of a binary64 number, through its sign, mantissa and
    exponent. *)
Definition float_ceil (x : float) : option Z :=
  match Prim2SF x with
  | S754_zero _ => Some 0
  | S754_finite s m e =>
      let n := if s then Z.neg m else Z.pos m in
      Some (if 0 <=? e then n * 2 ^ e else - ((- n) / 2 ^ (- e)))
  | _ => None
  end.

#[global] Instance float_Num : Num float := {|
  nadd := PrimFloat.add;
  nsub := PrimFloat.sub;
  nmul := PrimFloat.mul;
  ndiv := PrimFloat.div;
  nleb := PrimFloat.leb;
  is_zero := fun x => PrimFloat.eqb x 0%float;
  of_int := fun z => if 0 <=? z then PrimFloat.of_uint63 (Uint63.of_Z z)
                     else PrimFloat.opp (PrimFloat.of_uint63 (Uint63.of_Z (- z)));
  nceil := float_ceil
|}.

#[global] Instance Q_Num : Num Q := {|
  nadd := Qplus;
  nsub := Qminus;
  nmul := Qmult;
  ndiv := Qdiv;
  nleb := Qle_bool;
  is_zero := fun x => Qeq_bool x 0%Q;
  of_int := inject_Z;
  nceil := fun x => Some (Qceiling x)
|}.

Section Coordinates.

Context {R : Type} `{Num R}.

(** An affine transform [Affine(a, b, c, d, e, f)]: pixel (col, row) goes
    to [(a*col + b*row + c, d*col + e*row + f)]; [t[0]] is [a] and [t[4]]
    is [e]. *)
Record Affine : Type := {
  ta : R; tb : R; tc : R; td : R; te : R; tf : R
}.

(** [transform * (x, y)] *)
Definition affine_apply (t : Affine) (x y : R) : R * R :=
  (nadd (nadd (nmul x (ta t)) (nmul y (tb t))) (tc t),
   nadd (nadd (nmul x (td t)) (nmul y (te t))) (tf t)).

Definition nmin (x y : R) : R := if nleb x y then x else y.
Definition nmax (x y : R) : R := if nleb x y then y else x.

(** [rasterio.transform.array_bounds(height, width, transform)]:
    [(west, south, east, north)]. *)
Definition array_bounds (height width : Z) (t : Affine) : R * R * R * R :=
  if is_zero (tb t) && is_zero (td t) then
    (tc t, nadd (tf t) (nmul (te t) (of_int height)),
     nadd (tc t) (nmul (ta t) (of_int width)), tf t)
  else
    let '(c1x, c1y) := affine_apply t (of_int 0) (of_int height) in
    let '(c2x, c2y) := affine_apply t (of_int width) (of_int height) in
    let '(c3x, c3y) := affine_apply t (of_int width) (of_int 0) in
    (nmin (nmin (tc t) c1x) (nmin c2x c3x),
     nmin (nmin (tf t) c1y) (nmin c2y c3y),
     nmax (nmax (tc t) c1x) (nmax c2x c3x),
     nmax (nmax (tf t) c1y) (nmax c2y c3y)).

(** The number of entries of [np.arange(start, stop, step)]:
    [ceil((stop - start)/step)], none when that is not positive. *)
Definition arange_len (start stop step : R) : option nat :=
  n ← nceil (ndiv (nsub stop start) step);
  Some (Z.to_nat n).

(** [np.arange(start, stop, step)]: NumPy stores [start] and
    [start + step], takes their difference as the increment and fills
    entry [i] with [start + i*increment]. *)
Definition arange (start stop step : R) : option (list R) :=
  n ← arange_len start stop step;
  let next := nadd start step in
  let delta := nsub next start in
  Some (match n with
        | O => []
        | S O => [start]
        | S (S k) =>
            start :: next
            :: List.map (fun i => nadd start (nmul (of_int (Z.of_nat i)) delta))
                        (seq 2 k)
        end).

(** The lengths of [longitude] and [latitude] built from a mosaic of
    [height] rows and [width] columns. *)
Definition coordinate_lengths (height width : Z) (t : Affine)
  : option (nat * nat) :=
  let '(west, south, east, north) := array_bounds height width t in
  n_lon ← arange_len west east (ta t);
  n_lat ← arange_len north south (te t);
  Some (n_lon, n_lat).

(** The arrays [longitude] and [latitude] themselves. *)
Definition coordinate_arrays (height width : Z) (t : Affine)
  : option (list R * list R) :=
  let '(west, south, east, north) := array_bounds height width t in
  longitude ← arange west east (ta t);
  latitude ← arange north south (te t);
  Some (longitude, latitude).

(** The mosaic with its coordinates; the band axis has length one and is
    left out. *)
Record LabeledRaster : Type := {
  raster_latitude : list R;
  raster_longitude : list R;
  raster_data : DataArray
}.

(** [xr.DataArray(data, dims, coords)]: a coordinate whose length is not
    the size of its dimension is refused with a ValueError. *)
Definition xr_DataArray (data : DataArray) (latitude longitude : list R)
  : result LabeledRaster :=
  if (length latitude =? fst (shape data))%nat
     && (length longitude =? snd (shape data))%nat
  then Ok {| raster_latitude := latitude;
             raster_longitude := longitude;
             raster_data := data |}
  else Raise ValueError.

(** The three cells in a row, from the mosaic and its transform to the
    labeled raster; [np.arange] raises a ValueError when its length is
    not a finite number. *)
Definition mosaic_raster (mosaicked_img : DataArray) (mosaic_transform : Affine)
  : result LabeledRaster :=
  let height := Z.of_nat (fst (shape mosaicked_img)) in
  let width := Z.of_nat (snd (shape mosaicked_img)) in
  match coordinate_arrays height width mosaic_transform with
  | Some (longitude, latitude) => xr_DataArray mosaicked_img latitude longitude
  | None => Raise ValueError
  end.

End Coordinates.

(** Python's [round(x)] of a float: the nearest integer, a tie going to
    the even one. *)
Definition float_round (x : float) : option Z :=
  match Prim2SF x with
  | S754_zero _ => Some 0
  | S754_finite s m e =>
      let n := if s then Z.neg m else Z.pos m in
      if 0 <=? e then Some (n * 2 ^ e)
      else
        let d := 2 ^ (- e) in
        let q := n / d in
        let r := n mod d in
        Some (if 2 * r <? d then q
              else if d <? 2 * r then q + 1
              else if Z.even q then q else q + 1)
  | _ => None
  end.

(** The measure [round((x_max - x_min)/x_res)] of an extent in pixels. *)
Definition rounded_extent (x_min x_max x_res : float) : option Z :=
  float_round (PrimFloat.div (PrimFloat.sub x_max x_min) x_res).

Arguments Affine R : clear implicits.
Arguments LabeledRaster R : clear implicits.

(** A north-up transform with pixels of a tenth of a degree (the binary64
    number nearest to 0.1) and its upper-left corner at the origin. *)
Definition tenth_degree_transform : Affine float :=
  {| ta := 0x1.999999999999ap-4%float; tb := 0%float; tc := 0%float;
     td := 0%float; te := (-0x1.999999999999ap-4)%float; tf := 0%float |}.

(** The transform of an OPERA tile: 30 m pixels on a UTM grid. *)
Definition opera_transform : Affine float :=
  {| ta := 30%float; tb := 0%float; tc := 600000%float;
     td := 0%float; te := (-30)%float; tf := 4100040%float |}.

(** ** Helpers for statements about identifiers *)

(** [sep.join(fields)] *)
Fixpoint join (sep : string) (fields : list string) : string :=
  match fields with
  | [] => EmptyString
  | [f] => f
  | f :: rest => f +:+ sep +:+ join sep rest
  end.

(** The number of occurrences of a character in a string. *)
Fixpoint count_char (c : ascii) (s : string) : nat :=
  match s with
  | EmptyString => O
  | String ch rest => (if Ascii.eqb ch c then 1 else 0) + count_char c rest
  end.

(** The row that [search_to_dataframe] makes of one (granule, asset) pair. *)
Definition row_of (props : list string) (g : Granule) (a t : string) : list pyval :=
  List.map (fun k => default PyNone (properties g !! k)) props
  ++ [PyStr a; PyStr (asset_href (assets g) a); PyStr t].

(** The number of codes below [c]: the rank of [c] among the codes. *)
Definition rank_in (codes : list Z) (c : Z) : nat :=
  length (List.filter (fun x => x <? c) codes).

(** ** Helpers for statements about mosaics *)

(** A third one-row tile, overlapping [tile_B]. *)
Definition tile_C : RasterFrame :=
  {| row_off := 0; col_off := 2; nodata := 255; pixels := [[30; 31]] |}.


(** The value of the first source that is valid at a position, [fill]
    when none is. *)
Definition first_valid_of (sources : list RasterFrame) (r c fill : Z) : Z :=
  match List.find (fun f => valid_at f r c) sources with
  | Some f => default fill (frame_get f r c)
  | None => fill
  end.

(** A grid all of whose rows have the length of the first one. *)
Definition rectangular (data : DataArray) : Prop :=
  Forall (fun row => length row = snd (shape data)) data.

(** ** The area of interest: make_bbox and plot_bbox

<<
    def make_bbox(pt,dx,dy):
        return tuple(coord+sgn*delta for sgn in (-1,+1)
                     for coord,delta in zip(pt, (dx/2,dy/2)))

    def plot_bbox(bbox):
        ...
        lon_lat = (0.5*sum(bbox[::2]), 0.5*sum(bbox[1::2]))
        return (gv.Points([lon_lat]) * gv.Rectangles([bbox])).opts(point_opts, rect_opts)
>>
    A point and a bounding box are tuples of numbers, here lists. *)

(** [l[::2]] and [l[1::2]] *)
Fixpoint evens {A} (l : list A) : list A :=
  match l with
  | [] => []
  | x :: rest => x :: match rest with [] => [] | _ :: rest' => evens rest' end
  end.

Definition odds {A} (l : list A) : list A :=
  match l with [] => [] | _ :: rest => evens rest end.

Section AreaOfInterest.

Context {R : Type} `{Num R}.

Definition make_bbox (pt : list R) (dx dy : R) : list R :=
  flat_map (fun sgn =>
              List.map (fun cd => nadd (fst cd) (nmul (of_int sgn) (snd cd)))
                       (combine pt [ndiv dx (of_int 2); ndiv dy (of_int 2)]))
           [-1; 1].

(** [sum(l)]: Python adds the elements to the integer 0, from the left. *)
Definition py_sum (l : list R) : R := fold_left nadd l (of_int 0).

(** The point [lon_lat] that [plot_bbox] draws; the literal 0.5 is the
    exact quotient 1/2. *)
Definition bbox_center (bbox : list R) : R * R :=
  let half := ndiv (of_int 1) (of_int 2) in
  (nmul half (py_sum (evens bbox)), nmul half (py_sum (odds bbox))).

End AreaOfInterest.

(** ** The damaged area (wildfire case study)

<<
    pixel_val = 6
    conversion_factor = (30/1_000)**2 / pixel_val
    damage_area = stack.where(stack==pixel_val, other=0).sum(axis=(1,2))
    damage_area = damage_area.to_series() * conversion_factor
>>
    [stack] is the list of its time slices; the sum of the 8-bit pixels is
    accumulated in a 64-bit integer, here a [Z]. *)

(** [data.where(data == v, other=other)] *)
Definition da_where_eq (data : DataArray) (v other : Z) : DataArray :=
  List.map (List.map (fun p => if p =? v then p else other)) data.

(** [data.sum()] over both spatial axes *)
Definition da_sum (data : DataArray) : Z := fold_right Z.add 0 (da_flatten data).

(** The number of pixels of a slice that equal [v]. *)
Definition count_eq (data : DataArray) (v : Z) : nat :=
  length (List.filter (fun p => p =? v) (da_flatten data)).

Section DamagedArea.

Context {R : Type} `{Num R}.

(** [(30/1_000)**2 / pixel_val]; dividing by zero raises ZeroDivisionError
    ([None]).  The square is the product of the number with itself. *)
Definition conversion_factor (pixel_val : Z) : option R :=
  if pixel_val =? 0 then None
  else
    let side := ndiv (of_int 30) (of_int 1000) in
    Some (ndiv (nmul side side) (of_int pixel_val)).

Definition damage_area (stack : list DataArray) (pixel_val : Z) : option (list R) :=
  factor ← conversion_factor pixel_val;
  let sums := List.map (fun slice => da_sum (da_where_eq slice pixel_val 0)) stack in
  Some (List.map (fun total => nmul (of_int total) factor) sums).

End DamagedArea.

(** * Properties *)

(** ** Results *)

Lemma bind_Ok_inv {A B} (r : result A) (k : A → result B) (b : B) :
  r ≫= k = Ok b → ∃ a, r = Ok a ∧ k a = Ok b.
Proof. destruct r as [a|e]; simpl; [eauto | discriminate]. Qed.

Lemma py_assert_Ok_inv cond msg u : py_assert cond msg = Ok u → cond = true.
Proof. unfold py_assert. destruct cond; [reflexivity | discriminate]. Qed.

(** ** Rasters, pixel by pixel *)

Lemma map_lookup {A B} (g : A → B) (l : list A) (i : nat) :
  List.map g l !! i = g <$> l !! i.
Proof. exact (list_lookup_fmap g l i). Qed.

Lemma da_get_map (g : Z → Z) (data : DataArray) i j :
  da_get (List.map (List.map g) data) i j = g <$> da_get data i j.
Proof.
  unfold da_get. rewrite map_lookup.
  destruct (data !! i) as [row|]; simpl; [|reflexivity].
  apply map_lookup.
Qed.

Lemma da_where_ne_get data old new i j :
  da_get (da_where_ne data old new) i j
  = (fun p => if p =? old then new else p) <$> da_get data i j.
Proof. apply da_get_map. Qed.

Lemma relabel_step_map data item :
  relabel_step data item = List.map (List.map (fun p => pixel_step p item)) data.
Proof.
  destruct item as [old new]. unfold relabel_step, pixel_step.
  destruct (new =? old); [|reflexivity].
  rewrite <- (map_id data) at 1. apply map_ext. intros row.
  symmetry. apply map_id.
Qed.

Lemma relabel_loop_get relabel : ∀ data i j,
  da_get (relabel_loop data relabel) i j = pixel_loop relabel <$> da_get data i j.
Proof.
  unfold relabel_loop, pixel_loop.
  induction relabel as [|item relabel IH]; intros data i j; simpl.
  - destruct (da_get data i j); reflexivity.
  - rewrite IH, relabel_step_map, da_get_map.
    destruct (da_get data i j); reflexivity.
Qed.

Lemma relabel_loop_shape relabel : ∀ data,
  List.map length (relabel_loop data relabel) = List.map length data.
Proof.
  unfold relabel_loop.
  induction relabel as [|item relabel IH]; intros data; simpl; [reflexivity|].
  rewrite IH, relabel_step_map, List.map_map.
  apply map_ext. intros row. apply List.length_map.
Qed.

(** A pixel that is no key of the dictionary goes through the loop
    unchanged. *)
Lemma pixel_loop_not_key relabel : ∀ p,
  ¬ In p (dict_keys relabel) → pixel_loop relabel p = p.
Proof.
  unfold pixel_loop, dict_keys.
  induction relabel as [|[old new] relabel IH]; intros p Hp; simpl in *.
  - reflexivity.
  - assert (p ≠ old) as Hne by (intros ->; apply Hp; left; reflexivity).
    apply Z.eqb_neq in Hne. rewrite Hne.
    destruct (new =? old); apply IH; tauto.
Qed.

(** ** The steps of relabel_pixels *)

Lemma relabel_pixels_unfold data values null_val transparent_val replace_null start :
  relabel_pixels data values null_val transparent_val replace_null start
  = (codes ← remaining_codes data values null_val replace_null;
     new_values ← np.arange_uint8 start (length codes);
     _ ← py_assert (np.contains transparent_val new_values)
           "transparent_val not in new_values";
     let relabel := dict_of (combine codes new_values) in
     Ok (relabel_loop (collapse_null data null_val transparent_val replace_null)
                      relabel, relabel)).
Proof.
  unfold relabel_pixels, remaining_codes, sorted_codes, collapse_null.
  destruct values as [|v values]; simpl; [reflexivity|].
  destruct (np.array_uint8 (v :: values)); reflexivity.
Qed.

Lemma relabel_pixels_Ok_inv data values null_val transparent_val replace_null start out m :
  relabel_pixels data values null_val transparent_val replace_null start = Ok (out, m) →
  ∃ codes new_values,
    remaining_codes data values null_val replace_null = Ok codes
    ∧ np.arange_uint8 start (length codes) = Ok new_values
    ∧ np.contains transparent_val new_values = true
    ∧ m = dict_of (combine codes new_values)
    ∧ out = relabel_loop (collapse_null data null_val transparent_val replace_null) m.
Proof.
  rewrite relabel_pixels_unfold. intros Hok.
  apply bind_Ok_inv in Hok as (codes & Hcodes & Hok).
  apply bind_Ok_inv in Hok as (new_values & Hnew & Hok).
  apply bind_Ok_inv in Hok as (u & Hassert & Hok).
  apply py_assert_Ok_inv in Hassert.
  simpl in Hok. injection Hok as <- <-.
  exists codes, new_values. auto.
Qed.

(** ** Dictionaries *)

Lemma dict_set_In d k v kv :
  In kv (dict_set d k v) → In kv d ∨ kv = (k, v).
Proof.
  induction d as [|[k' v'] d IH]; simpl.
  - intros [<-|[]]. right. reflexivity.
  - destruct (k' =? k) eqn:E; simpl.
    + apply Z.eqb_eq in E as ->. intros [<-|Hin]; [right; reflexivity | left; right; exact Hin].
    + intros [<-|Hin]; [left; left; reflexivity|].
      destruct (IH Hin); [left; right; assumption | right; assumption].
Qed.

Lemma dict_fold_In pairs : ∀ acc kv,
  In kv (fold_left (fun d kv => dict_set d (fst kv) (snd kv)) pairs acc) →
  In kv acc ∨ In kv pairs.
Proof.
  induction pairs as [|[k v] pairs IH]; intros acc kv; simpl.
  - auto.
  - intros Hin. destruct (IH _ _ Hin) as [Hacc|Hp]; [|auto].
    destruct (dict_set_In _ _ _ _ Hacc) as [?| ->]; auto.
Qed.

(** Every entry of [dict(pairs)] is one of the pairs. *)
Lemma dict_of_In pairs kv : In kv (dict_of pairs) → In kv pairs.
Proof.
  intros Hin. destruct (dict_fold_In _ _ _ Hin) as [[]|]; assumption.
Qed.

Lemma dict_get_In d k v : dict_get d k = Some v → In (k, v) d.
Proof.
  induction d as [|[k' v'] d IH]; simpl; [discriminate|].
  destruct (k' =? k) eqn:E.
  - apply Z.eqb_eq in E as ->. intros [= ->]. left. reflexivity.
  - intros Hget. right. apply IH, Hget.
Qed.

Lemma dict_get_key d k v : dict_get d k = Some v → In k (dict_keys d).
Proof.
  intros Hget. apply dict_get_In in Hget.
  unfold dict_keys. apply in_map_iff. exists (k, v). auto.
Qed.

Lemma dict_key_get d k : In k (dict_keys d) → ∃ v, dict_get d k = Some v.
Proof.
  unfold dict_keys.
  induction d as [|[k' v'] d IH]; simpl; [intros []|].
  destruct (k' =? k) eqn:E; [eauto|].
  intros [->|Hin]; [rewrite Z.eqb_refl in E; discriminate | auto].
Qed.

Lemma dict_set_fresh d k v :
  ¬ In k (dict_keys d) → dict_set d k v = d ++ [(k, v)].
Proof.
  unfold dict_keys.
  induction d as [|[k' v'] d IH]; simpl; intros Hk; [reflexivity|].
  destruct (k' =? k) eqn:E.
  - apply Z.eqb_eq in E. tauto.
  - rewrite IH by tauto. reflexivity.
Qed.

Lemma dict_fold_NoDup pairs : ∀ acc,
  NoDup (List.map fst (acc ++ pairs)) →
  fold_left (fun d kv => dict_set d (fst kv) (snd kv)) pairs acc = acc ++ pairs.
Proof.
  induction pairs as [|[k v] pairs IH]; intros acc Hnd; simpl.
  - rewrite app_nil_r. reflexivity.
  - rewrite dict_set_fresh.
    + rewrite IH; rewrite <- app_assoc; [reflexivity | exact Hnd].
    + rewrite List.map_app in Hnd. simpl in Hnd.
      apply NoDup_app in Hnd as (_ & Hdisj & _).
      intros Hin. apply (Hdisj k); [apply list_elem_of_In, Hin | left].
Qed.

(** With pairwise distinct keys, [dict(pairs)] keeps every pair. *)
Lemma dict_of_NoDup pairs : NoDup (List.map fst pairs) → dict_of pairs = pairs.
Proof. intros Hnd. unfold dict_of. rewrite dict_fold_NoDup; auto. Qed.

Lemma dict_get_combine_NoDup ks : ∀ vs i k v,
  NoDup ks → ks !! i = Some k → vs !! i = Some v →
  dict_get (combine ks vs) k = Some v.
Proof.
  induction ks as [|k0 ks IH]; intros vs i k v Hnd Hk Hv; [discriminate|].
  destruct vs as [|v0 vs]; [discriminate|].
  apply NoDup_cons in Hnd as [Hk0 Hnd].
  destruct i as [|i]; simpl in *.
  - injection Hk as ->. injection Hv as ->. rewrite Z.eqb_refl. reflexivity.
  - destruct (k0 =? k) eqn:E.
    + apply Z.eqb_eq in E as ->. exfalso. apply Hk0.
      apply list_elem_of_lookup. eauto.
    + eapply IH; eauto.
Qed.

(** ** np.arange on uint8 *)

Lemma in_uint8_spec z : in_uint8 z = true ↔ 0 <= z < 256.
Proof. unfold in_uint8. rewrite andb_true_iff, Z.leb_le, Z.ltb_lt. tauto. Qed.

Lemma arange_uint8_length start n l :
  np.arange_uint8 start n = Ok l → length l = n.
Proof.
  unfold np.arange_uint8. destruct n as [|[|n]].
  - intros [= <-]. reflexivity.
  - destruct (in_uint8 start); [intros [= <-]; reflexivity | discriminate].
  - destruct (in_uint8 start && in_uint8 (start + 1)); [|discriminate].
    intros [= <-]. simpl. rewrite List.length_map, List.length_seq. reflexivity.
Qed.

Lemma arange_uint8_wraps start n l :
  np.arange_uint8 start n = Ok l →
  l = List.map (fun i => wrap_uint8 (start + Z.of_nat i)) (seq 0 n).
Proof.
  unfold np.arange_uint8. destruct n as [|[|n]].
  - intros [= <-]. reflexivity.
  - destruct (in_uint8 start) eqn:E; [|discriminate]. intros [= <-].
    apply in_uint8_spec in E. simpl. unfold wrap_uint8.
    rewrite Z.add_0_r, Z.mod_small by lia. reflexivity.
  - destruct (in_uint8 start && in_uint8 (start + 1)); [|discriminate].
    intros [= <-]. reflexivity.
Qed.

Lemma arange_uint8_start start n l :
  np.arange_uint8 start n = Ok l → n ≠ O → 0 <= start < 256.
Proof.
  unfold np.arange_uint8. destruct n as [|[|n]]; intros Hok Hn.
  - congruence.
  - destruct (in_uint8 start) eqn:E; [|discriminate]. apply in_uint8_spec, E.
  - destruct (in_uint8 start) eqn:E; [|discriminate]. apply in_uint8_spec, E.
Qed.

Lemma label_range_wrap start n :
  0 <= start → start + Z.of_nat n <= 256 →
  List.map (fun i => wrap_uint8 (start + Z.of_nat i)) (seq 0 n) = label_range start n.
Proof.
  intros Hs Hn. unfold label_range. apply map_ext_in. intros i Hi.
  apply in_seq in Hi. unfold wrap_uint8. apply Z.mod_small. lia.
Qed.

(** When the labels fit in a uint8, [np.arange] returns them unchanged. *)
Lemma arange_uint8_fits start n l :
  np.arange_uint8 start n = Ok l → start + Z.of_nat n <= 256 →
  l = label_range start n.
Proof.
  intros Hok Hfit. destruct n as [|n].
  - apply arange_uint8_wraps in Hok as ->. reflexivity.
  - pose proof (arange_uint8_start _ _ _ Hok ltac:(discriminate)) as Hs.
    apply arange_uint8_wraps in Hok as ->.
    apply label_range_wrap; lia.
Qed.

Lemma contains_In x a : np.contains x a = true ↔ In x a.
Proof.
  unfold np.contains. rewrite existsb_exists. split.
  - intros (y & Hy & E). apply Z.eqb_eq in E as ->. exact Hy.
  - intros Hx. exists x. split; [exact Hx | apply Z.eqb_refl].
Qed.

Lemma label_range_In start n v :
  In v (label_range start n) ↔ start <= v < start + Z.of_nat n.
Proof.
  unfold label_range. rewrite in_map_iff. split.
  - intros (i & <- & Hi). apply in_seq in Hi. lia.
  - intros Hv. exists (Z.to_nat (v - start)). split; [lia|].
    apply in_seq. lia.
Qed.

Lemma label_range_lookup start n i :
  (i < n)%nat → label_range start n !! i = Some (start + Z.of_nat i).
Proof.
  intros Hi. unfold label_range. rewrite map_lookup.
  rewrite lookup_seq_lt by exact Hi. reflexivity.
Qed.

Lemma label_range_length start n : length (label_range start n) = n.
Proof. unfold label_range. rewrite List.length_map, List.length_seq. reflexivity. Qed.

(** ** The category codes *)

Lemma np_sort_Permutation a : np.sort a ≡ₚ a.
Proof. apply merge_sort_Permutation. Qed.

Lemma np_sort_sorted a : StronglySorted Z.le (np.sort a).
Proof. apply (StronglySorted_merge_sort Z.le). Qed.

Lemma where_ne_sorted a x :
  StronglySorted Z.le a → StronglySorted Z.le (np.where_ne a x).
Proof.
  unfold np.where_ne. induction 1 as [|y a Hs IH Hall]; simpl; [constructor|].
  destruct (negb (y =? x)); [|exact IH].
  constructor; [exact IH|].
  apply List.Forall_forall. intros z Hz. apply filter_In in Hz as [Hz _].
  rewrite List.Forall_forall in Hall. auto.
Qed.

Lemma where_ne_In a x v : In v (np.where_ne a x) ↔ In v a ∧ v ≠ x.
Proof.
  unfold np.where_ne. rewrite filter_In, negb_true_iff, Z.eqb_neq. tauto.
Qed.

Lemma where_ne_NoDup a x : NoDup a → NoDup (np.where_ne a x).
Proof.
  induction 1 as [|y a Hy Hnd IH]; simpl; [constructor|].
  destruct (negb (y =? x)); [|exact IH].
  constructor; [|exact IH].
  rewrite list_elem_of_In, where_ne_In, <- list_elem_of_In. tauto.
Qed.

Lemma sorted_codes_sorted data values codes :
  sorted_codes data values = Ok codes → StronglySorted Z.le codes.
Proof.
  unfold sorted_codes. destruct values as [|v values].
  - intros [= <-]. apply np_sort_sorted.
  - destruct (np.array_uint8 (v :: values)); simpl; [|discriminate].
    intros [= <-]. apply np_sort_sorted.
Qed.

Lemma sorted_codes_NoDup data values codes :
  sorted_codes data values = Ok codes → NoDup values → NoDup codes.
Proof.
  unfold sorted_codes. destruct values as [|v values].
  - intros [= <-] _. unfold np.unique.
    rewrite np_sort_Permutation, merge_sort_Permutation.
    apply NoDup_remove_dups.
  - unfold np.array_uint8. destruct (forallb in_uint8 (v :: values)); simpl; [|discriminate].
    intros [= <-] Hnd. rewrite np_sort_Permutation. exact Hnd.
Qed.

Lemma remaining_codes_sorted data values null_val replace_null codes :
  remaining_codes data values null_val replace_null = Ok codes →
  StronglySorted Z.le codes.
Proof.
  unfold remaining_codes. intros Hok.
  apply bind_Ok_inv in Hok as (codes0 & Hs & Hok).
  apply sorted_codes_sorted in Hs. injection Hok as <-.
  destruct replace_null; [apply where_ne_sorted|]; exact Hs.
Qed.

Lemma remaining_codes_NoDup data values null_val replace_null codes :
  remaining_codes data values null_val replace_null = Ok codes →
  NoDup values → NoDup codes.
Proof.
  unfold remaining_codes. intros Hok Hnd.
  apply bind_Ok_inv in Hok as (codes0 & Hs & Hok).
  apply (sorted_codes_NoDup _ _ _ Hs) in Hnd. injection Hok as <-.
  destruct replace_null; [|exact Hnd].
  apply where_ne_NoDup, Hnd.
Qed.

(** With the collapse enabled the missing code is no category any more. *)
Lemma remaining_codes_no_null data values null_val codes :
  remaining_codes data values null_val true = Ok codes → ¬ In null_val codes.
Proof.
  unfold remaining_codes. intros Hok.
  apply bind_Ok_inv in Hok as (codes0 & Hs & Hok). injection Hok as <-.
  rewrite where_ne_In. tauto.
Qed.

(** ** Positions in zipped and sorted arrays *)

Lemma In_combine_lookup {A B} (l1 : list A) : ∀ (l2 : list B) x y,
  In (x, y) (combine l1 l2) → ∃ i, l1 !! i = Some x ∧ l2 !! i = Some y.
Proof.
  induction l1 as [|a l1 IH]; intros l2 x y; simpl; [intros []|].
  destruct l2 as [|b l2]; simpl; [intros []|].
  intros [[= -> ->]|Hin].
  - exists O. split; reflexivity.
  - destruct (IH _ _ _ Hin) as (i & H1 & H2). exists (S i). auto.
Qed.

Lemma StronglySorted_lookup_le (l : list Z) : ∀ i j x y,
  StronglySorted Z.le l → (i <= j)%nat →
  l !! i = Some x → l !! j = Some y → x <= y.
Proof.
  induction l as [|a l IH]; intros i j x y Hs Hij Hx Hy; [discriminate|].
  apply StronglySorted_inv in Hs as [Hs Hall].
  destruct i as [|i], j as [|j]; simpl in *.
  - injection Hx as ->. injection Hy as ->. lia.
  - injection Hx as ->. rewrite List.Forall_forall in Hall. apply Hall.
    apply list_elem_of_In, list_elem_of_lookup. eauto.
  - lia.
  - apply (IH i j x y Hs); [lia | exact Hx | exact Hy].
Qed.

(** In a sorted array a strictly smaller element sits at a strictly
    smaller position. *)
Lemma StronglySorted_lookup_lt (l : list Z) i j x y :
  StronglySorted Z.le l → l !! i = Some x → l !! j = Some y →
  x < y → (i < j)%nat.
Proof.
  intros Hs Hx Hy Hlt.
  destruct (Nat.lt_ge_cases i j) as [|Hge]; [assumption|].
  pose proof (StronglySorted_lookup_le l j i y x Hs Hge Hy Hx). lia.
Qed.

Lemma combine_keys_values {A B} (l1 : list A) : ∀ (l2 : list B),
  length l1 = length l2 →
  List.map fst (combine l1 l2) = l1 ∧ List.map snd (combine l1 l2) = l2.
Proof.
  induction l1 as [|a l1 IH]; intros [|b l2] Hlen; simpl in *; try discriminate.
  - auto.
  - destruct (IH l2) as [-> ->]; [lia | auto].
Qed.

(** For pairwise distinct codes and labels that fit in a uint8, the
    dictionary pairs the remaining codes with the labels in order. *)
Lemma relabel_dict_distinct
    data values null_val transparent_val replace_null start out m codes :
  NoDup values →
  relabel_pixels data values null_val transparent_val replace_null start
    = Ok (out, m) →
  remaining_codes data values null_val replace_null = Ok codes →
  start + Z.of_nat (length codes) <= 256 →
  m = combine codes (label_range start (length codes))
  ∧ In transparent_val (label_range start (length codes)).
Proof.
  intros Hnd Hok Hcodes Hfit.
  apply relabel_pixels_Ok_inv in Hok
    as (codes' & new_values & Hcodes' & Hnew & Hin & -> & _).
  rewrite Hcodes in Hcodes'. injection Hcodes' as <-.
  pose proof (remaining_codes_NoDup _ _ _ _ _ Hcodes Hnd) as Hnd'.
  apply (arange_uint8_fits _ _ _) in Hnew as ->; [|exact Hfit].
  destruct (combine_keys_values codes (label_range start (length codes)))
    as [Hk Hv]; [rewrite label_range_length; reflexivity|].
  rewrite dict_of_NoDup by (rewrite Hk; exact Hnd').
  split; [reflexivity | apply contains_In, Hin].
Qed.

(** The call of the notebook, on a small raster. *)
Example relabel_notebook_call :
  relabel_pixels_default [[0; 1; 255]; [252; 253; 2]] [0; 1; 2; 252; 253; 254; 255]
  = Ok ([[0; 1; 0]; [3; 4; 2]],
        [(0, 0); (1, 1); (2, 2); (252, 3); (253, 4); (254, 5)]).
Proof. vm_compute. reflexivity. Qed.

(** ** relabel_pixels: the transparent value *)

(** C3 (counterexample): the transparent code 0 is no member of the
    category codes 1, 2, 3, and yet the call succeeds; the dictionary it
    returns has no entry for 0. *)
Lemma transparent_code_outside_codes_accepted :
  ¬ In 0 [1; 2; 3]
  ∧ relabel_pixels [[1; 2; 3]] [1; 2; 3] 255 0 true 0
    = Ok ([[0; 1; 2]], [(1, 0); (2, 1); (3, 2)])
  ∧ dict_get [(1, 0); (2, 1); (3, 2)] 0 = None.
Proof.
  split; [|split]; [|vm_compute; reflexivity..].
  simpl. intros [H|[H|[H|[]]]]; discriminate H.
Qed.

(** C3 (amended): the assertion of relabel_pixels compares the transparent
    value with the new labels, not with the category codes.  Every
    successful call has the transparent value among the new labels
    [start + i] (reduced modulo 256), [i] below the number of remaining
    codes; when the labels are computed and the transparent value is not
    one of them, the call raises AssertionError; and for pairwise distinct
    codes with labels that fit in a uint8 the transparent value is in the
    image of the returned dictionary. *)
Theorem relabel_transparent_among_new_labels
    data values null_val transparent_val replace_null start :
  (∀ out m,
     relabel_pixels data values null_val transparent_val replace_null start
       = Ok (out, m) →
     ∃ codes i,
       remaining_codes data values null_val replace_null = Ok codes
       ∧ (i < length codes)%nat
       ∧ transparent_val = wrap_uint8 (start + Z.of_nat i))
  ∧ (∀ codes new_values,
       remaining_codes data values null_val replace_null = Ok codes →
       np.arange_uint8 start (length codes) = Ok new_values →
       ¬ In transparent_val new_values →
       relabel_pixels data values null_val transparent_val replace_null start
         = Raise (AssertionError "transparent_val not in new_values"))
  ∧ (∀ out m codes,
       NoDup values →
       relabel_pixels data values null_val transparent_val replace_null start
         = Ok (out, m) →
       remaining_codes data values null_val replace_null = Ok codes →
       start + Z.of_nat (length codes) <= 256 →
       In transparent_val (dict_values m)).
Proof.
  split; [|split].
  - intros out m Hok.
    apply relabel_pixels_Ok_inv in Hok
      as (codes & new_values & Hcodes & Hnew & Hin & _ & _).
    apply contains_In in Hin.
    rewrite (arange_uint8_wraps _ _ _ Hnew) in Hin.
    apply in_map_iff in Hin as (i & <- & Hi). apply in_seq in Hi.
    exists codes, i. repeat split; [exact Hcodes | lia].
  - intros codes new_values Hcodes Hnew Hnot.
    rewrite relabel_pixels_unfold, Hcodes. simpl. rewrite Hnew. simpl.
    destruct (np.contains transparent_val new_values) eqn:E; [|reflexivity].
    apply contains_In in E. contradiction.
  - intros out m codes Hnd Hok Hcodes Hfit.
    destruct (relabel_dict_distinct _ _ _ _ _ _ _ _ _ Hnd Hok Hcodes Hfit)
      as [-> Hin].
    destruct (combine_keys_values codes (label_range start (length codes)))
      as [_ Hv]; [rewrite label_range_length; reflexivity|].
    unfold dict_values. rewrite Hv. exact Hin.
Qed.

(** A transparent value outside the new labels fails the assertion, even
    when it is one of the category codes. *)
Example transparent_code_outside_labels_rejected :
  relabel_pixels [[0; 1; 253]] [0; 1; 253] 255 253 true 0
  = Raise (AssertionError "transparent_val not in new_values").
Proof. vm_compute. reflexivity. Qed.

Lemma relabel_transparent_among_new_labels_witness :
  ∃ codes i,
    remaining_codes [[0; 1; 255]] [0; 1; 2; 255] 255 true = Ok codes
    ∧ (i < length codes)%nat
    ∧ 0 = wrap_uint8 (0 + Z.of_nat i).
Proof.
  apply (proj1 (relabel_transparent_among_new_labels
                  [[0; 1; 255]] [0; 1; 2; 255] 255 0 true 0)
           [[0; 1; 0]] [(0, 0); (1, 1); (2, 2)]).
  vm_compute. reflexivity.
Defined.

(** ** relabel_pixels: the image of the dictionary *)

(** C4 (counterexample): with the codes 1, 1, 2 three codes remain and the
    call succeeds, but the dictionary is {1: 1, 2: 2}: the label 0 of the
    range [0, 3) is no value of it. *)
Lemma repeated_code_leaves_gap :
  relabel_pixels [[1; 2]] [1; 1; 2] 255 0 true 0 = Ok ([[1; 2]], [(1, 1); (2, 2)])
  ∧ remaining_codes [[1; 2]] [1; 1; 2] 255 true = Ok [1; 1; 2]
  ∧ 0 <= 0 < 0 + Z.of_nat (length [1; 1; 2])
  ∧ ¬ In 0 (dict_values [(1, 1); (2, 2)]).
Proof.
  split; [vm_compute; reflexivity|].
  split; [vm_compute; reflexivity|].
  split; [simpl; lia|].
  simpl. intros [H|[H|[]]]; discriminate H.
Qed.

(** C4 (amended): for pairwise distinct category codes, and when the
    labels fit in a uint8 ([start + n <= 256], [n] the number of codes
    remaining after the missing-value collapse), every successful call
    returns a dictionary whose keys are the remaining codes and whose
    values are exactly [start, start+1, ..., start+n-1]. *)
Theorem relabel_image_is_range
    data values null_val transparent_val replace_null start out m codes :
  NoDup values →
  relabel_pixels data values null_val transparent_val replace_null start
    = Ok (out, m) →
  remaining_codes data values null_val replace_null = Ok codes →
  start + Z.of_nat (length codes) <= 256 →
  dict_keys m = codes
  ∧ dict_values m = label_range start (length codes)
  ∧ ∀ v, In v (dict_values m) ↔ start <= v < start + Z.of_nat (length codes).
Proof.
  intros Hnd Hok Hcodes Hfit.
  destruct (relabel_dict_distinct _ _ _ _ _ _ _ _ _ Hnd Hok Hcodes Hfit) as [-> _].
  destruct (combine_keys_values codes (label_range start (length codes)))
    as [Hk Hv]; [rewrite label_range_length; reflexivity|].
  unfold dict_keys, dict_values. rewrite Hk, Hv.
  split; [reflexivity|]. split; [reflexivity|].
  intros v. apply label_range_In.
Qed.

Lemma relabel_image_is_range_witness :
  dict_keys [(0, 0); (1, 1); (2, 2); (252, 3); (253, 4); (254, 5)]
    = [0; 1; 2; 252; 253; 254]
  ∧ dict_values [(0, 0); (1, 1); (2, 2); (252, 3); (253, 4); (254, 5)]
    = label_range 0 (length [0; 1; 2; 252; 253; 254])
  ∧ ∀ v, In v (dict_values [(0, 0); (1, 1); (2, 2); (252, 3); (253, 4); (254, 5)])
         ↔ 0 <= v < 0 + Z.of_nat (length [0; 1; 2; 252; 253; 254]).
Proof.
  apply (relabel_image_is_range
           [[0; 1; 255]; [252; 253; 2]] [0; 1; 2; 252; 253; 254; 255] 255 0 true 0
           [[0; 1; 0]; [3; 4; 2]]).
  - repeat (apply NoDup_cons; split;
            [rewrite list_elem_of_In; simpl; lia|]).
    apply NoDup_nil. exact I.
  - vm_compute. reflexivity.
  - vm_compute. reflexivity.
  - simpl. lia.
Defined.

(** ** relabel_pixels: order of the labels *)

(** C5 (counterexample): the labels are uint8 and wrap around.  With the
    codes 0, 1, 2 and start 254 the dictionary is {0: 254, 1: 255, 2: 0}:
    code 1 is below code 2 but its label 255 is above the label 0. *)
Lemma labels_wrap_past_255 :
  relabel_pixels [[0; 1; 2]] [0; 1; 2] 255 254 true 254
    = Ok ([[254; 255; 0]], [(0, 254); (1, 255); (2, 0)])
  ∧ dict_get [(0, 254); (1, 255); (2, 0)] 1 = Some 255
  ∧ dict_get [(0, 254); (1, 255); (2, 0)] 2 = Some 0
  ∧ 1 < 2 ∧ ¬ 255 < 0.
Proof.
  repeat split; try (vm_compute; reflexivity). lia.
Qed.

(** C5 (amended): when the labels fit in a uint8 ([start + n <= 256], [n]
    the number of codes remaining after the missing-value collapse), the
    dictionary returned by relabel_pixels is strictly monotone: a smaller
    code has a smaller label. *)
Theorem relabel_monotone
    data values null_val transparent_val replace_null start out m codes :
  relabel_pixels data values null_val transparent_val replace_null start
    = Ok (out, m) →
  remaining_codes data values null_val replace_null = Ok codes →
  start + Z.of_nat (length codes) <= 256 →
  ∀ ci cj vi vj,
    dict_get m ci = Some vi → dict_get m cj = Some vj → ci < cj → vi < vj.
Proof.
  intros Hok Hcodes Hfit ci cj vi vj Hi Hj Hlt.
  apply relabel_pixels_Ok_inv in Hok
    as (codes' & new_values & Hcodes' & Hnew & _ & -> & _).
  rewrite Hcodes in Hcodes'. injection Hcodes' as <-.
  apply remaining_codes_sorted in Hcodes.
  apply (arange_uint8_fits _ _ _) in Hnew as ->; [|exact Hfit].
  apply dict_get_In, dict_of_In, In_combine_lookup in Hi as (a & Ha & Hva).
  apply dict_get_In, dict_of_In, In_combine_lookup in Hj as (b & Hb & Hvb).
  pose proof (StronglySorted_lookup_lt _ _ _ _ _ Hcodes Ha Hb Hlt) as Hab.
  pose proof (lookup_lt_Some _ _ _ Ha) as Hla.
  pose proof (lookup_lt_Some _ _ _ Hb) as Hlb.
  rewrite label_range_lookup in Hva, Hvb by assumption.
  injection Hva as <-. injection Hvb as <-. lia.
Qed.

Lemma relabel_monotone_witness :
  relabel_pixels [[0; 253]] [0; 1; 2; 253; 254; 255] 255 0 true 0
    = Ok ([[0; 3]], [(0, 0); (1, 1); (2, 2); (253, 3); (254, 4)])
  ∧ 2 < 3.
Proof.
  split; [vm_compute; reflexivity|].
  apply (relabel_monotone [[0; 253]] [0; 1; 2; 253; 254; 255] 255 0 true 0
           [[0; 3]] [(0, 0); (1, 1); (2, 2); (253, 3); (254, 4)]
           [0; 1; 2; 253; 254] eq_refl eq_refl ltac:(simpl; lia)
           2 253 2 3 eq_refl eq_refl eq_refl).
Defined.

(** ** relabel_pixels: the missing-value collapse *)

Lemma dict_of_keys_from pairs k :
  In k (dict_keys (dict_of pairs)) → In k (List.map fst pairs).
Proof.
  unfold dict_keys. rewrite !in_map_iff.
  intros (kv & <- & Hin). exists kv. split; [reflexivity|].
  apply dict_of_In, Hin.
Qed.

Lemma combine_fst_In {A B} (l1 : list A) (l2 : list B) x :
  In x (List.map fst (combine l1 l2)) → In x l1.
Proof.
  rewrite in_map_iff. intros ([a b] & <- & Hin).
  apply in_combine_l in Hin. exact Hin.
Qed.

(** C6: with replace_null true, the data are first rewritten (every pixel
    equal to the missing code becomes the transparent code), the missing
    code is dropped from the sorted codes, and only then are the labels
    assigned, so the dictionary has no entry for the missing code.  For the
    codes 0, 1, 2, 252, 253, 254, 255 with missing 255, transparent 0 and
    start 0 the dictionary is {0: 0, 1: 1, 2: 2, 252: 3, 253: 4, 254: 5}
    and every pixel that was 255 ends as 0. *)
Theorem relabel_collapse_missing :
  (∀ data values null_val transparent_val start out m,
     relabel_pixels data values null_val transparent_val true start = Ok (out, m) →
     ∃ codes0 new_values,
       sorted_codes data values = Ok codes0
       ∧ np.arange_uint8 start (length (np.where_ne codes0 null_val)) = Ok new_values
       ∧ m = dict_of (combine (np.where_ne codes0 null_val) new_values)
       ∧ out = relabel_loop (da_where_ne data null_val transparent_val) m
       ∧ ¬ In null_val (dict_keys m)
       ∧ dict_get m null_val = None)
  ∧ (∀ data, ∃ out,
       relabel_pixels data [0; 1; 2; 252; 253; 254; 255] 255 0 true 0
         = Ok (out, [(0, 0); (1, 1); (2, 2); (252, 3); (253, 4); (254, 5)])
       ∧ ∀ i j, da_get data i j = Some 255 → da_get out i j = Some 0).
Proof.
  split.
  - intros data values null_val transparent_val start out m Hok.
    apply relabel_pixels_Ok_inv in Hok
      as (codes & new_values & Hcodes & Hnew & _ & Hm & Hout).
    pose proof (remaining_codes_no_null _ _ _ _ Hcodes) as Hnull.
    unfold remaining_codes in Hcodes.
    apply bind_Ok_inv in Hcodes as (codes0 & Hs & Hcodes).
    injection Hcodes as <-.
    assert (¬ In null_val (dict_keys m)) as Hkey.
    { intros Hin. apply Hnull. subst m.
      apply dict_of_keys_from, combine_fst_In in Hin. exact Hin. }
    exists codes0, new_values. repeat split; try assumption.
    destruct (dict_get m null_val) as [v|] eqn:E; [|reflexivity].
    apply dict_get_key in E. contradiction.
  - intros data.
    exists (relabel_loop (da_where_ne data 255 0)
              [(0, 0); (1, 1); (2, 2); (252, 3); (253, 4); (254, 5)]).
    split.
    + rewrite relabel_pixels_unfold. reflexivity.
    + intros i j Hpx.
      rewrite relabel_loop_get, da_where_ne_get, Hpx. reflexivity.
Qed.

Lemma relabel_collapse_missing_witness :
  ∃ codes0 new_values,
    sorted_codes [[1; 255]; [253; 0]] [0; 1; 253; 255] = Ok codes0
    ∧ np.arange_uint8 0 (length (np.where_ne codes0 255)) = Ok new_values
    ∧ [(0, 0); (1, 1); (253, 2)] = dict_of (combine (np.where_ne codes0 255) new_values)
    ∧ [[1; 0]; [2; 0]]
      = relabel_loop (da_where_ne [[1; 255]; [253; 0]] 255 0) [(0, 0); (1, 1); (253, 2)]
    ∧ ¬ In 255 (dict_keys [(0, 0); (1, 1); (253, 2)])
    ∧ dict_get [(0, 0); (1, 1); (253, 2)] 255 = None.
Proof.
  apply (proj1 relabel_collapse_missing
           [[1; 255]; [253; 0]] [0; 1; 253; 255] 255 0 0).
  vm_compute. reflexivity.
Defined.

(** ** relabel_pixels: pixels outside the category codes *)




(** ** relabel_pixels: the round trip *)

(** C2 (failing input): with start 1 the loop over the dictionary rewrites
    0 to 1, then every 1 to 2, then every 2 to 3.  For the data 0, 1, 2
    drawn from the codes 0, 1, 2 the output is 3, 3, 3 although the
    dictionary returned is {0: 1, 1: 2, 2: 3}, and applying the inverse
    dictionary gives 2, 2, 2, not the original data. *)
Theorem relabel_cascades_when_start_positive :
  relabel_pixels [[0; 1; 2]] [0; 1; 2] 255 1 true 1
    = Ok ([[3; 3; 3]], [(0, 1); (1, 2); (2, 3)])
  ∧ dict_inverse [(0, 1); (1, 2); (2, 3)] = [(1, 0); (2, 1); (3, 2)]
  ∧ dict_apply (dict_inverse [(0, 1); (1, 2); (2, 3)]) [[3; 3; 3]] = [[2; 2; 2]]
  ∧ [[2; 2; 2]] ≠ [[0; 1; 2]].
Proof.
  repeat split; try (vm_compute; reflexivity). discriminate.
Qed.

(** ** relabel_pixels with the default start

    With [start = 0] and pairwise distinct codes no label exceeds its code,
    so the loop never rewrites a pixel twice and the inverse dictionary
    restores every pixel that holds a category code. *)

Lemma sorted_distinct_ge_index (l : list Z) : ∀ b i x,
  StronglySorted Z.le l → NoDup l → Forall (fun c => b <= c) l →
  l !! i = Some x → b + Z.of_nat i <= x.
Proof.
  induction l as [|a l IH]; intros b i x Hs Hnd Hb Hx; [discriminate|].
  apply StronglySorted_inv in Hs as [Hs Hall].
  apply NoDup_cons in Hnd as [Ha Hnd].
  apply List.Forall_cons_iff in Hb as [Hba Hb].
  destruct i as [|i]; simpl in Hx.
  - injection Hx as ->. lia.
  - assert (b + 1 + Z.of_nat i <= x) as Hle; [|lia].
    apply (IH (b + 1) i x Hs Hnd); [|exact Hx].
    rewrite List.Forall_forall in *. intros c Hc.
    specialize (Hall c Hc).
    assert (c ≠ a) by (intros ->; apply Ha, list_elem_of_In, Hc).
    lia.
Qed.

Lemma remaining_codes_uint8 data values null_val replace_null codes :
  values ≠ [] →
  remaining_codes data values null_val replace_null = Ok codes →
  Forall (fun c => 0 <= c) codes ∧ Forall (fun c => c < 256) codes.
Proof.
  intros Hne Hok. unfold remaining_codes, sorted_codes in Hok.
  destruct values as [|v values]; [contradiction|].
  unfold np.array_uint8 in Hok.
  destruct (forallb in_uint8 (v :: values)) eqn:E; simpl in Hok; [|discriminate].
  injection Hok as <-.
  assert (∀ c, In c (np.sort (v :: values)) → 0 <= c < 256) as Hrange.
  { intros c Hc. rewrite forallb_forall in E. apply in_uint8_spec, E.
    apply list_elem_of_In. rewrite <- (np_sort_Permutation (v :: values)).
    apply list_elem_of_In, Hc. }
  split; apply List.Forall_forall; intros c Hc;
    (destruct replace_null; [apply where_ne_In in Hc as [Hc _]|]);
    apply Hrange in Hc; lia.
Qed.

Lemma pixel_loop_hit (l : pydict) : ∀ p v,
  StronglySorted Z.le (dict_keys l) → NoDup (dict_keys l) →
  (∀ old new, In (old, new) l → new <= old) →
  dict_get l p = Some v → pixel_loop l p = v.
Proof.
  unfold pixel_loop, dict_keys.
  induction l as [|[old new] l IH]; intros p v Hs Hnd Hle Hget; [discriminate|].
  simpl in *.
  apply StronglySorted_inv in Hs as [Hs Hall].
  apply NoDup_cons in Hnd as [Hold Hnd].
  destruct (old =? p) eqn:E.
  - apply Z.eqb_eq in E as <-. injection Hget as <-.
    assert (fold_left pixel_step l new = new) as Hstay.
    { apply pixel_loop_not_key. unfold dict_keys. intros Hin.
      rewrite List.Forall_forall in Hall. specialize (Hall new Hin).
      specialize (Hle old new (or_introl eq_refl)).
      assert (new = old) as -> by lia.
      apply Hold, list_elem_of_In, Hin. }
    rewrite Z.eqb_refl. destruct (new =? old) eqn:E'; [|exact Hstay].
    apply Z.eqb_eq in E' as <-. exact Hstay.
  - assert ((p =? old) = false) as -> by (rewrite Z.eqb_sym; exact E).
    destruct (new =? old); apply IH; auto.
Qed.

Lemma label_range_NoDup start n : NoDup (label_range start n).
Proof.
  apply NoDup_alt. intros i j x Hi Hj.
  pose proof (lookup_lt_Some _ _ _ Hi) as Hli.
  pose proof (lookup_lt_Some _ _ _ Hj) as Hlj.
  rewrite label_range_length in Hli, Hlj.
  rewrite label_range_lookup in Hi, Hj by assumption.
  injection Hi as <-. injection Hj as Hj. lia.
Qed.

Lemma swap_combine {A B} (l1 : list A) : ∀ (l2 : list B),
  List.map (fun kv => (snd kv, fst kv)) (combine l1 l2) = combine l2 l1.
Proof.
  induction l1 as [|a l1 IH]; intros [|b l2]; simpl; try reflexivity.
  rewrite IH. reflexivity.
Qed.

(** X16: with the default start, supplied pairwise distinct codes and any
    data, every pixel that holds a remaining category code is relabelled as
    the dictionary says, and the inverse dictionary restores it. *)
Lemma relabel_round_trip_default_start
    data values null_val transparent_val replace_null out m :
  values ≠ [] → NoDup values →
  relabel_pixels data values null_val transparent_val replace_null 0 = Ok (out, m) →
  ∀ i j p,
    da_get data i j = Some p → In p (dict_keys m) →
    da_get out i j = dict_get m p
    ∧ da_get (dict_apply (dict_inverse m) out) i j = Some p.
Proof.
  intros Hne Hnd Hok i j p Hpx Hkey.
  destruct (relabel_pixels_Ok_inv _ _ _ _ _ _ _ _ Hok)
    as (codes & new_values & Hcodes & _ & _ & _ & Hout).
  destruct (remaining_codes_uint8 _ _ _ _ _ Hne Hcodes) as [Hge Hlt].
  pose proof (remaining_codes_sorted _ _ _ _ _ Hcodes) as Hsorted.
  pose proof (remaining_codes_NoDup _ _ _ _ _ Hcodes Hnd) as Hnd'.
  assert (0 + Z.of_nat (length codes) <= 256) as Hfit.
  { destruct (length codes) as [|k] eqn:Hlen; [lia|].
    destruct (lookup_lt_is_Some_2 codes k) as [x Hx]; [lia|].
    pose proof (sorted_distinct_ge_index codes 0 k x Hsorted Hnd' Hge Hx).
    rewrite List.Forall_forall in Hlt.
    specialize (Hlt x). 
    assert (In x codes) as Hin by (apply list_elem_of_In, list_elem_of_lookup; eauto).
    specialize (Hlt Hin). lia. }
  destruct (relabel_dict_distinct _ _ _ _ _ _ _ _ _ Hnd Hok Hcodes Hfit) as [Hm _].
  destruct (combine_keys_values codes (label_range 0 (length codes)))
    as [Hk Hv]; [rewrite label_range_length; reflexivity|].
  assert (dict_keys m = codes) as Hkeys by (subst m; exact Hk).
  destruct (dict_key_get _ _ Hkey) as [v Hget].
  assert (da_get (collapse_null data null_val transparent_val replace_null) i j
          = Some p) as Hpx'.
  { unfold collapse_null. destruct replace_null; [|exact Hpx].
    rewrite da_where_ne_get, Hpx. simpl.
    assert (p ≠ null_val) as Hp.
    { intros ->. apply (remaining_codes_no_null _ _ _ _ Hcodes).
      rewrite <- Hkeys. exact Hkey. }
    apply Z.eqb_neq in Hp. rewrite Hp. reflexivity. }
  assert (pixel_loop m p = v) as Hloop.
  { apply pixel_loop_hit; [rewrite Hkeys; assumption.. | | exact Hget].
    intros old new Hin. rewrite Hm in Hin.
    apply In_combine_lookup in Hin as (k & Hold & Hnew).
    pose proof (lookup_lt_Some _ _ _ Hold) as Hk'.
    rewrite label_range_lookup in Hnew by exact Hk'. injection Hnew as <-.
    apply (sorted_distinct_ge_index codes 0 k old); assumption. }
  assert (da_get out i j = Some v) as Hout'.
  { rewrite Hout, relabel_loop_get, Hpx'. simpl. rewrite Hloop. reflexivity. }
  split; [rewrite Hout', Hget; reflexivity|].
  unfold dict_apply. rewrite da_get_map, Hout'. simpl. f_equal.
  assert (dict_get (dict_inverse m) v = Some p) as ->; [|reflexivity].
  unfold dict_inverse. rewrite Hm, swap_combine.
  rewrite dict_of_NoDup.
  - rewrite Hm in Hget.
    apply dict_get_In, In_combine_lookup in Hget as (k & Hold & Hnew).
    apply (dict_get_combine_NoDup _ _ k); [apply label_range_NoDup | assumption..].
  - destruct (combine_keys_values (label_range 0 (length codes)) codes)
      as [Hk2 _]; [apply label_range_length|].
    rewrite Hk2. apply label_range_NoDup.
Qed.

(** ** search_to_dataframe *)

Lemma gen_rows_length props granules : ∀ rs,
  gen_rows props granules = Ok rs → length rs = n_pairs granules.
Proof.
  unfold n_pairs.
  induction granules as [|g gs IH]; simpl; intros rs Hok.
  - injection Hok as <-. reflexivity.
  - apply bind_Ok_inv in Hok as (t & _ & Hok).
    apply bind_Ok_inv in Hok as (rest & Hrest & Hok).
    injection Hok as <-.
    unfold granule_rows.
    rewrite length_app, !List.length_map, (IH _ Hrest). reflexivity.
Qed.

(** C10: search_to_dataframe fails its first assertion when the search
    yields no granule, and a DataFrame it returns has one row per
    (granule, asset) pair and at least one row. *)
Theorem search_to_dataframe_nonempty :
  search_to_dataframe []
    = Raise (AssertionError "Error: empty list of search results")
  ∧ ∀ search df,
      search_to_dataframe search = Ok df →
      (1 <= length (df_rows df))%nat ∧ length (df_rows df) = n_pairs search.
Proof.
  split; [reflexivity|].
  intros search df Hok. unfold search_to_dataframe in Hok.
  apply bind_Ok_inv in Hok as (u & _ & Hok).
  apply bind_Ok_inv in Hok as (rs & Hrows & Hok).
  apply bind_Ok_inv in Hok as (df' & Hconcat & Hok).
  apply bind_Ok_inv in Hok as (u' & Hlen & Hok).
  injection Hok as ->.
  apply py_assert_Ok_inv, negb_true_iff, Nat.eqb_neq in Hlen.
  unfold pd.concat in Hconcat.
  destruct rs as [|r rs]; [discriminate|]. injection Hconcat as <-.
  simpl in *. split; [lia|].
  apply (gen_rows_length _ _ _ Hrows).
Qed.

Lemma search_to_dataframe_nonempty_witness :
  let df := {| df_columns := ["eo:cloud_cover"; "asset"; "href"; "tile_id"]%string;
               df_rows := [[PyInt 5; PyStr "0_B01_WTR";
                            PyStr "https://example.org/B01_WTR.tif"; PyStr "T11SQA"];
                           [PyInt 5; PyStr "0_B02_BWTR";
                            PyStr "https://example.org/B02_BWTR.tif"; PyStr "T11SQA"]] |} in
  (1 <= length (df_rows df))%nat ∧ length (df_rows df) = n_pairs [example_granule].
Proof.
  apply (proj2 search_to_dataframe_nonempty [example_granule]).
  vm_compute. reflexivity.
Defined.

(** ** The stacking loop *)

Section StackingFacts.

Context {Timestamp : Type}.
Variable open_rasterio : string → Raster.

(** The loop appends one tagged array per row, in row order. *)
Lemma stack_loop_appends (df : list (Timestamp * string)) : ∀ stack,
  fold_left (stack_step open_rasterio) df stack
  = stack ++ List.map (tagged_of open_rasterio) df.
Proof.
  induction df as [|[timestamp href] df IH]; intros stack; simpl.
  - rewrite app_nil_r. reflexivity.
  - rewrite IH, <- app_assoc. reflexivity.
Qed.

Lemma index_union_same (a : list Z) : index_union a a = a.
Proof. unfold index_union. rewrite bool_decide_eq_true_2; reflexivity. Qed.

Lemma indexes_equal_all (index : list Z) (indexes : list (list Z)) :
  (∀ i, In i indexes → i = index) → indexes_equal indexes = true.
Proof.
  intros Hall. destruct indexes as [|first rest]; [reflexivity|].
  simpl. apply forallb_forall. intros i Hi.
  apply bool_decide_eq_true_2.
  rewrite (Hall i (or_intror Hi)), (Hall first (or_introl eq_refl)). reflexivity.
Qed.

Lemma index_join_all (index : list Z) (indexes : list (list Z)) :
  indexes ≠ [] → (∀ i, In i indexes → i = index) → index_join indexes = index.
Proof.
  intros Hne Hall. destruct indexes as [|first rest]; [contradiction|].
  simpl. rewrite (Hall first (or_introl eq_refl)).
  assert (∀ i, In i rest → i = index) as Hrest by (intros i Hi; apply Hall; right; exact Hi).
  clear Hall Hne. induction rest as [|i rest IH]; simpl; [reflexivity|].
  rewrite (Hrest i (or_introl eq_refl)), index_union_same.
  apply IH. intros j Hj. apply Hrest. right. exact Hj.
Qed.

(** Arrays whose indexes need no reindexing keep their values. *)
Lemma aligned_values_kept (lat lon : list Z) (x : Tagged Timestamp) :
  aligned_values false false lat lon x = List.map (List.map Some) (data_values x).
Proof.
  unfold aligned_values, align_axis. rewrite List.map_map. reflexivity.
Qed.

(** Arrays on one grid are laid out as they are, in list order. *)
Lemma xr_concat_same_grid (arrays : list (Tagged Timestamp)) (lat lon : list Z) :
  arrays ≠ [] →
  (∀ x, In x arrays → coord_latitude x = lat ∧ coord_longitude x = lon) →
  xr_concat arrays
  = Ok {| tags := List.map coord_time arrays;
          stack_latitude := lat;
          stack_longitude := lon;
          slices := List.map (fun x => List.map (List.map Some) (data_values x)) arrays |}.
Proof.
  intros Hne Hgrid. destruct arrays as [|first arrays]; [contradiction|].
  unfold xr_concat.
  set (all := first :: arrays) in *.
  assert (∀ i, In i (List.map coord_latitude all) → i = lat) as Hlat.
  { intros i Hi. apply in_map_iff in Hi as (x & <- & Hx). apply Hgrid, Hx. }
  assert (∀ i, In i (List.map coord_longitude all) → i = lon) as Hlon.
  { intros i Hi. apply in_map_iff in Hi as (x & <- & Hx). apply Hgrid, Hx. }
  rewrite (indexes_equal_all lat _ Hlat), (indexes_equal_all lon _ Hlon).
  simpl negb. simpl andb. simpl orb. cbv iota.
  rewrite (index_join_all lat), (index_join_all lon); try assumption;
    try (unfold all; discriminate).
  f_equal. f_equal. apply List.map_ext. intros x. apply aligned_values_kept.
Qed.

(** Whatever the grids of the rasters, a stack that is built has the row
    labels as its tags, in row order, and one slice per row. *)
Lemma build_stack_tags (df : list (Timestamp * string)) (st : Stack Timestamp) :
  build_stack open_rasterio df = Ok st →
  tags st = List.map fst df ∧ length (slices st) = length df.
Proof.
  unfold build_stack. rewrite stack_loop_appends. simpl.
  unfold xr_concat. destruct (List.map (tagged_of open_rasterio) df) eqn:E;
    [discriminate|]. rewrite <- E. clear E.
  destruct (_ || _); [discriminate|]. intros [= <-]. simpl.
  rewrite List.map_map, !List.length_map. split; reflexivity.
Qed.

(** C7 (amended): for a non-empty sequence of rows whose rasters lie on
    one grid (the same latitude and longitude coordinates, hence the same
    shape), the stacking loop followed by xr.concat yields a Stack with
    exactly one tag per row, the tags being the row labels in row order,
    repeated labels included, on the grid of the rasters, the slices
    being the rasters read, pixel for pixel and each with its shape
    unchanged. *)
Theorem build_stack_preserves_order (df : list (Timestamp * string))
    (lat lon : list Z) :
  df ≠ [] →
  (∀ item, In item df →
     coord_y (open_rasterio (snd item)) = lat
     ∧ coord_x (open_rasterio (snd item)) = lon) →
  ∃ st, build_stack open_rasterio df = Ok st
    ∧ tags st = List.map fst df
    ∧ length (tags st) = length df
    ∧ stack_latitude st = lat
    ∧ stack_longitude st = lon
    ∧ slices st
      = List.map (fun item =>
                    List.map (List.map Some) (raster_values (open_rasterio (snd item))))
                 df
    ∧ Forall2 (fun item slice =>
                 slice_shape slice = shape (raster_values (open_rasterio (snd item))))
              df (slices st).
Proof.
  intros Hne Hgrid. unfold build_stack.
  rewrite stack_loop_appends. simpl.
  rewrite (xr_concat_same_grid _ lat lon).
  - eexists. split; [reflexivity|]. simpl.
    rewrite !List.map_map. simpl.
    split; [reflexivity|]. split; [rewrite List.length_map; reflexivity|].
    split; [reflexivity|]. split; [reflexivity|]. split; [reflexivity|].
    clear Hne Hgrid. induction df as [|item df IH]; simpl; constructor; [|exact IH].
    unfold slice_shape, shape. rewrite List.length_map.
    destruct (raster_values (open_rasterio (snd item))) as [|row rows]; simpl;
      [reflexivity|]. rewrite List.length_map. reflexivity.
  - destruct df; [contradiction | discriminate].
  - intros x Hx. apply in_map_iff in Hx as (item & <- & Hitem).
    simpl. apply Hgrid, Hitem.
Qed.

End StackingFacts.

Lemma build_stack_preserves_order_witness :
  ∃ st,
    build_stack example_reader
      [("2023-08-01", "a.tif"); ("2023-08-13", "b.tif");
       ("2023-08-05", "c.tif"); ("2023-08-05", "a.tif")]%string = Ok st
    ∧ tags st = List.map fst
        [("2023-08-01", "a.tif"); ("2023-08-13", "b.tif");
         ("2023-08-05", "c.tif"); ("2023-08-05", "a.tif")]%string
    ∧ length (tags st) = 4%nat
    ∧ stack_latitude st = [20; 10]
    ∧ stack_longitude st = [100; 110]
    ∧ slices st
      = List.map (fun item =>
                    List.map (List.map Some) (raster_values (example_reader (snd item))))
          [("2023-08-01", "a.tif"); ("2023-08-13", "b.tif");
           ("2023-08-05", "c.tif"); ("2023-08-05", "a.tif")]%string
    ∧ Forall2 (fun item slice =>
                 slice_shape slice = shape (raster_values (example_reader (snd item))))
        [("2023-08-01", "a.tif"); ("2023-08-13", "b.tif");
         ("2023-08-05", "c.tif"); ("2023-08-05", "a.tif")]%string (slices st).
Proof.
  apply (build_stack_preserves_order example_reader
           [("2023-08-01", "a.tif"); ("2023-08-13", "b.tif");
            ("2023-08-05", "c.tif"); ("2023-08-05", "a.tif")]%string
           [20; 10] [100; 110]).
  - discriminate.
  - simpl. intros item [<-|[<-|[<-|[<-|[]]]]]; split; reflexivity.
Defined.

(** C7 (counterexample): two rasters of the same shape, two rows by two
    columns, whose longitudes differ are stacked on the union of the
    longitudes: every slice has two rows and four columns, the pixels off
    a raster's own grid being missing.  And an empty sequence of rows
    yields no Stack: xr.concat raises ValueError. *)
Lemma shifted_frames_change_shape :
  shape (raster_values (shifted_reader "a.tif")) = (2%nat, 2%nat)
  ∧ shape (raster_values (shifted_reader "b.tif")) = (2%nat, 2%nat)
  ∧ build_stack shifted_reader
      [("2023-08-01", "a.tif"); ("2023-08-13", "b.tif")]%string
    = Ok {| tags := ["2023-08-01"; "2023-08-13"]%string;
            stack_latitude := [20; 10];
            stack_longitude := [100; 110; 120; 130];
            slices := [[[Some 1; Some 2; None; None];
                        [Some 3; Some 4; None; None]];
                       [[None; None; Some 5; Some 6];
                        [None; None; Some 7; Some 8]]] |}
  ∧ Forall (fun slice => slice_shape slice = (2%nat, 4%nat))
      [[[Some 1; Some 2; None; None]; [Some 3; Some 4; None; None]];
       [[None; None; Some 5; Some 6]; [None; None; Some 7; Some 8]]]
  ∧ build_stack (Timestamp := string) shifted_reader [] = Raise ValueError.
Proof.
  split; [reflexivity|]. split; [reflexivity|].
  split; [vm_compute; reflexivity|].
  split; [repeat constructor | reflexivity].
Qed.

(** Rows with the same label are not collapsed: each gives a slice of its
    own. *)
Example build_stack_keeps_repeated_tags :
  build_stack example_reader
    [("2023-08-05", "a.tif"); ("2023-08-05", "b.tif")]%string
  = Ok {| tags := ["2023-08-05"; "2023-08-05"]%string;
          stack_latitude := [20; 10];
          stack_longitude := [100; 110];
          slices := [[[Some 1; Some 2]; [Some 3; Some 4]];
                     [[Some 0; Some 0]; [Some 0; Some 255]]] |}.
Proof. vm_compute. reflexivity. Qed.

(** ** Mosaicking *)

Lemma paint_get method nodataval top left dest src i j :
  da_get (paint method nodataval top left dest src) i j
  = (fun merged =>
       paint_pixel method nodataval (top + Z.of_nat i) (left + Z.of_nat j) merged src)
    <$> da_get dest i j.
Proof.
  unfold da_get, paint. rewrite list_lookup_imap.
  destruct (dest !! i) as [row|]; simpl; [|reflexivity].
  apply list_lookup_imap.
Qed.

Lemma fold_paint_get method nodataval top left sources : ∀ dest i j,
  da_get (fold_left (paint method nodataval top left) sources dest) i j
  = (fun merged =>
       fold_left (paint_pixel method nodataval (top + Z.of_nat i) (left + Z.of_nat j))
                 sources merged)
    <$> da_get dest i j.
Proof.
  induction sources as [|src sources IH]; intros dest i j; simpl.
  - destruct (da_get dest i j); reflexivity.
  - rewrite IH, paint_get. destruct (da_get dest i j); reflexivity.
Qed.

Lemma da_get_replicate (h w : nat) (x : Z) (i j : nat) :
  (i < h)%nat → (j < w)%nat →
  da_get (replicate h (replicate w x)) i j = Some x.
Proof.
  intros Hi Hj. unfold da_get.
  rewrite lookup_replicate_2 by exact Hi.
  apply lookup_replicate_2, Hj.
Qed.

(** Every pixel of a mosaic of two frames, by lattice position: the fill
    value painted over by the two sources in turn. *)
Lemma merge_pair_get method f1 f2 r c :
  let top := Z.min (row_off f1) (row_off f2) in
  let left := Z.min (col_off f1) (col_off f2) in
  let bottom := Z.max (row_off f1 + height f1) (row_off f2 + height f2) in
  let right := Z.max (col_off f1 + width f1) (col_off f2 + width f2) in
  top <= r < bottom → left <= c < right →
  ∃ m, merge_with method [f1; f2] = Ok m
    ∧ m_row_off m = top ∧ m_col_off m = left
    ∧ shape (m_pixels m)
      = (Z.to_nat (bottom - top), Z.to_nat (right - left))
    ∧ mosaic_get m r c
      = Some (paint_pixel method (nodata f1) r c
                (paint_pixel method (nodata f1) r c (nodata f1) f1) f2).
Proof.
  intros top left bottom right Hr Hc.
  eexists. split; [reflexivity|].
  unfold union_top, union_left, union_bottom, union_right. simpl.
  rewrite !Z.min_id, !Z.max_id.
  fold top left bottom right.
  split; [reflexivity|]. split; [reflexivity|]. split.
  - unfold shape.
    assert (∀ d, length (paint method (nodata f1) top left d f2) = length d) as Hlen.
    { intros d. unfold paint. apply length_imap. }
    assert (∀ d src, match paint method (nodata f1) top left d src with
                     | [] => O | row :: _ => length row end
                     = match d with [] => O | row :: _ => length row end) as Hrow.
    { intros d src. unfold paint. destruct d as [|row d]; simpl; [reflexivity|].
      apply length_imap. }
    unfold paint at 1. rewrite length_imap.
    unfold paint at 1. rewrite length_imap, length_replicate.
    rewrite !Hrow.
    destruct (Z.to_nat (bottom - top)) eqn:E; [lia|]. simpl.
    rewrite length_replicate. reflexivity.
  - unfold mosaic_get, frame_get. simpl.
    replace (top <=? r) with true by (symmetry; apply Z.leb_le; lia).
    replace (left <=? c) with true by (symmetry; apply Z.leb_le; lia).
    simpl.
    change (paint method (nodata f1) top left
              (paint method (nodata f1) top left ?d f1) f2)
      with (fold_left (paint method (nodata f1) top left) [f1; f2] d).
    rewrite fold_paint_get, da_get_replicate by lia.
    simpl. rewrite !Z2Nat.id by lia.
    replace (top + (r - top)) with r by lia.
    replace (left + (c - left)) with c by lia.
    reflexivity.
Qed.

Lemma paint_pair_first_valid f1 f2 r c :
  nodata f1 = nodata f2 →
  paint_pixel method_first (nodata f1) r c
    (paint_pixel method_first (nodata f1) r c (nodata f1) f1) f2
  = first_valid f1 f2 r c.
Proof.
  intros Hnd. unfold paint_pixel, first_valid, valid_at, copyto, copy_first.
  rewrite <- Hnd, Z.eqb_refl.
  destruct (frame_get f1 r c) as [v1|]; simpl.
  - destruct (v1 =? nodata f1) eqn:E1; simpl.
    + rewrite Z.eqb_refl. destruct (frame_get f2 r c) as [v2|]; simpl; [|reflexivity].
      destruct (v2 =? nodata f1); reflexivity.
    + rewrite E1. simpl. destruct (frame_get f2 r c); reflexivity.
  - rewrite Z.eqb_refl. destruct (frame_get f2 r c) as [v2|]; simpl; [|reflexivity].
    destruct (v2 =? nodata f1); reflexivity.
Qed.

Lemma first_valid_outside_overlap f1 f2 r c :
  nodata f1 = nodata f2 → overlap_at f1 f2 r c = false →
  first_valid f1 f2 r c = first_valid f2 f1 r c.
Proof.
  intros Hnd. unfold overlap_at, first_valid. rewrite <- Hnd.
  destruct (valid_at f1 r c), (valid_at f2 r c); simpl;
    [discriminate | reflexivity..].
Qed.

Lemma first_valid_in_overlap f1 f2 r c :
  overlap_at f1 f2 r c = true →
  Some (first_valid f1 f2 r c) = frame_get f1 r c.
Proof.
  unfold overlap_at, first_valid, valid_at. intros Hov.
  apply andb_true_iff in Hov as [H1 _].
  destruct (frame_get f1 r c) as [v1|]; [|discriminate].
  rewrite H1. reflexivity.
Qed.

(** C1 (counterexample): tile A covers columns 0-1 with 10, 11 and tile B
    covers columns 1-2 with 20, 21.  In merge([A, B]) the overlapped pixel
    of column 1 holds 11, the value of the first-supplied tile, not the 20
    of the second-supplied one. *)
Lemma merge_keeps_first_supplied_value :
  merge [tile_A; tile_B]
    = Ok {| m_row_off := 0; m_col_off := 0; m_pixels := [[10; 11; 21]] |}
  ∧ overlap_at tile_A tile_B 0 1 = true
  ∧ frame_get tile_A 0 1 = Some 11
  ∧ frame_get tile_B 0 1 = Some 20
  ∧ mosaic_get {| m_row_off := 0; m_col_off := 0; m_pixels := [[10; 11; 21]] |} 0 1
    = Some 11.
Proof. repeat split; vm_compute; reflexivity. Qed.

(** Only with rasterio's non-default [method='last'] would the overlapped
    pixel take the value of the second-supplied tile. *)
Example merge_last_takes_second_supplied_value :
  merge_with method_last [tile_A; tile_B]
  = Ok {| m_row_off := 0; m_col_off := 0; m_pixels := [[10; 20; 21]] |}.
Proof. vm_compute. reflexivity. Qed.

(** C1 (amended): merging is deterministic and first-write-wins.  For two
    frames of one lattice (equal CRS and resolution) with the same nodata
    value, merge([f1, f2]) and merge([f2, f1]) cover the same extent, each
    pixel of merge([f1, f2]) holds the value of the first of f1, f2 that is
    valid there, the two results agree at every position outside the
    overlap, and inside the overlap every pixel takes the value of the
    first-supplied frame. *)
Theorem merge_first_write_wins f1 f2 r c :
  nodata f1 = nodata f2 →
  Z.min (row_off f1) (row_off f2) <= r
    < Z.max (row_off f1 + height f1) (row_off f2 + height f2) →
  Z.min (col_off f1) (col_off f2) <= c
    < Z.max (col_off f1 + width f1) (col_off f2 + width f2) →
  ∃ m12 m21,
    merge [f1; f2] = Ok m12 ∧ merge [f2; f1] = Ok m21
    ∧ (∀ m, merge [f1; f2] = Ok m → m = m12)
    ∧ m_row_off m12 = m_row_off m21 ∧ m_col_off m12 = m_col_off m21
    ∧ shape (m_pixels m12) = shape (m_pixels m21)
    ∧ mosaic_get m12 r c = Some (first_valid f1 f2 r c)
    ∧ mosaic_get m21 r c = Some (first_valid f2 f1 r c)
    ∧ (overlap_at f1 f2 r c = false → mosaic_get m12 r c = mosaic_get m21 r c)
    ∧ (overlap_at f1 f2 r c = true →
       mosaic_get m12 r c = frame_get f1 r c
       ∧ mosaic_get m21 r c = frame_get f2 r c).
Proof.
  intros Hnd Hr Hc.
  destruct (merge_pair_get method_first f1 f2 r c Hr Hc)
    as (m12 & H12 & Htop12 & Hleft12 & Hshape12 & Hget12).
  destruct (merge_pair_get method_first f2 f1 r c) as
    (m21 & H21 & Htop21 & Hleft21 & Hshape21 & Hget21); [lia..|].
  rewrite paint_pair_first_valid in Hget12 by exact Hnd.
  rewrite paint_pair_first_valid in Hget21 by (symmetry; exact Hnd).
  exists m12, m21. unfold merge.
  split; [exact H12|]. split; [exact H21|].
  split; [intros m Hm; congruence|].
  split; [lia|]. split; [lia|].
  split. { rewrite Hshape12, Hshape21. f_equal; f_equal; lia. }
  split; [exact Hget12|]. split; [exact Hget21|].
  split.
  - intros Hov. rewrite Hget12, Hget21. f_equal.
    apply first_valid_outside_overlap; assumption.
  - intros Hov. rewrite Hget12, Hget21. split.
    + apply first_valid_in_overlap, Hov.
    + apply first_valid_in_overlap. unfold overlap_at in *.
      rewrite andb_comm. exact Hov.
Qed.

Lemma merge_first_write_wins_witness :
  ∃ m12 m21,
    merge [tile_A; tile_B] = Ok m12 ∧ merge [tile_B; tile_A] = Ok m21
    ∧ (∀ m, merge [tile_A; tile_B] = Ok m → m = m12)
    ∧ m_row_off m12 = m_row_off m21 ∧ m_col_off m12 = m_col_off m21
    ∧ shape (m_pixels m12) = shape (m_pixels m21)
    ∧ mosaic_get m12 0 1 = Some (first_valid tile_A tile_B 0 1)
    ∧ mosaic_get m21 0 1 = Some (first_valid tile_B tile_A 0 1)
    ∧ (overlap_at tile_A tile_B 0 1 = false → mosaic_get m12 0 1 = mosaic_get m21 0 1)
    ∧ (overlap_at tile_A tile_B 0 1 = true →
       mosaic_get m12 0 1 = frame_get tile_A 0 1
       ∧ mosaic_get m21 0 1 = frame_get tile_B 0 1).
Proof.
  apply (merge_first_write_wins tile_A tile_B 0 1).
  - reflexivity.
  - vm_compute. split; [discriminate | reflexivity].
  - vm_compute. split; [discriminate | reflexivity].
Defined.

(** ** Coordinate arrays *)

Section CoordinateFacts.

Context {R : Type} `{Num R}.

(** The number of entries of np.arange is the length it computes first. *)
Lemma arange_length (start stop step : R) (l : list R) :
  arange start stop step = Some l →
  arange_len start stop step = Some (length l).
Proof.
  unfold arange. destruct (arange_len start stop step) as [n|]; [|discriminate].
  simpl. intros [= <-]. f_equal.
  destruct n as [|[|k]]; simpl; [reflexivity | reflexivity |].
  rewrite List.length_map, List.length_seq. reflexivity.
Qed.

(** The lengths of the coordinate arrays are the lengths computed for
    them. *)
Lemma coordinate_arrays_lengths (height width : Z) (t : Affine R)
    (longitude latitude : list R) :
  coordinate_arrays height width t = Some (longitude, latitude) →
  coordinate_lengths height width t = Some (length longitude, length latitude).
Proof.
  unfold coordinate_arrays, coordinate_lengths.
  destruct (array_bounds height width t) as [[[west south] east] north].
  destruct (arange west east (ta t)) as [lon|] eqn:Elon; [|discriminate].
  destruct (arange north south (te t)) as [lat|] eqn:Elat; [|discriminate].
  simpl. intros [= <- <-].
  rewrite (arange_length _ _ _ _ Elon), (arange_length _ _ _ _ Elat). reflexivity.
Qed.

End CoordinateFacts.


(** On the 30 m UTM grid of the OPERA tiles the binary64 computation is
    exact and the lengths agree with the shape. *)
Example opera_coordinate_lengths :
  coordinate_lengths 3660 3660 opera_transform = Some (3660%nat, 3660%nat).
Proof. vm_compute. reflexivity. Qed.

(** For comparison, in exact arithmetic: for a north-up transform with
    non-zero pixel sizes the same cells give exactly [width] longitudes
    and [height] latitudes.  This is not what the notebook computes, whose
    numbers are binary64. *)
Lemma coordinate_lengths_exact (height width : Z) (t : Affine Q) :
  0 <= height → 0 <= width →
  (tb t == 0)%Q → (td t == 0)%Q → ¬ (ta t == 0)%Q → ¬ (te t == 0)%Q →
  coordinate_lengths height width t
  = Some (Z.to_nat width, Z.to_nat height).
Proof.
  intros Hh Hw Hb Hd Ha He.
  unfold coordinate_lengths, array_bounds, arange_len. simpl.
  apply Qeq_bool_iff in Hb, Hd. rewrite Hb, Hd. simpl.
  assert (((tc t + ta t * inject_Z width - tc t) / ta t == inject_Z width)%Q) as Hx
    by (field; exact Ha).
  assert (((tf t + te t * inject_Z height - tf t) / te t == inject_Z height)%Q) as Hy
    by (field; exact He).
  rewrite Hx, Hy, !Qceiling_Z. reflexivity.
Qed.

(** * Further properties of the utilities *)

(** ** Identifiers and tile ids *)

Lemma string_app_nil_r (s : string) : s +:+ EmptyString = s.
Proof.
  induction s as [|ch s IH]; [reflexivity|].
  change (String ch (s +:+ EmptyString) = String ch s). f_equal. exact IH.
Qed.

Lemma string_app_assoc (s1 s2 s3 : string) :
  (s1 +:+ s2) +:+ s3 = s1 +:+ (s2 +:+ s3).
Proof.
  induction s1 as [|ch s1 IH]; [reflexivity|].
  change (String ch ((s1 +:+ s2) +:+ s3) = String ch (s1 +:+ (s2 +:+ s3))).
  f_equal. exact IH.
Qed.

Lemma split_from_length sep : ∀ s cur,
  length (split_from sep cur s) = S (count_char sep s).
Proof.
  induction s as [|ch s IH]; intros cur; simpl; [reflexivity|].
  destruct (Ascii.eqb ch sep); simpl; rewrite IH; reflexivity.
Qed.

(** A field without separator is read into the accumulator whole. *)
Lemma split_from_field sep : ∀ f cur s,
  count_char sep f = O →
  split_from sep cur (f +:+ s) = split_from sep (cur +:+ f) s.
Proof.
  induction f as [|ch f IH]; intros cur s Hf.
  - change (EmptyString +:+ s) with s. rewrite string_app_nil_r. reflexivity.
  - change (String ch f +:+ s) with (String ch (f +:+ s)).
    cbn [split_from count_char] in *.
    destruct (Ascii.eqb ch sep); [discriminate|].
    rewrite IH by exact Hf. rewrite string_app_assoc. reflexivity.
Qed.

Lemma split_from_join sep : ∀ fields f cur,
  Forall (fun x => count_char sep x = O) (f :: fields) →
  split_from sep cur (join (String sep EmptyString) (f :: fields))
  = (cur +:+ f) :: fields.
Proof.
  induction fields as [|g fields IH]; intros f cur Hall.
  - simpl. apply List.Forall_inv in Hall.
    rewrite <- (string_app_nil_r f) at 1.
    rewrite split_from_field by exact Hall. reflexivity.
  - change (join (String sep EmptyString) (f :: g :: fields))
      with (f +:+ String sep EmptyString +:+ join (String sep EmptyString) (g :: fields)).
    pose proof (List.Forall_inv Hall) as Hf.
    apply List.Forall_inv_tail in Hall.
    rewrite split_from_field by exact Hf.
    change (String sep EmptyString +:+ ?x) with (String sep x).
    cbn [split_from]. rewrite Ascii.eqb_refl. f_equal.
    rewrite (IH g EmptyString Hall). reflexivity.
Qed.

(** Splitting undoes joining, for fields that are free of the separator. *)
Lemma split_join sep fields :
  fields ≠ [] →
  Forall (fun x => count_char sep x = O) fields →
  split (join (String sep EmptyString) fields) sep = fields.
Proof.
  intros Hne Hall. destruct fields as [|f fields]; [contradiction|].
  unfold split. rewrite split_from_join by exact Hall. reflexivity.
Qed.

(** X1: for an id made of fields joined by underscores (the fields
    themselves free of underscores), the tile id is the fourth field, and
    taking it raises IndexError when the id has fewer than four fields. *)
Theorem tile_id_is_fourth_field (g : Granule) (fields : list string) :
  id g = join "_" fields →
  Forall (fun x => count_char "_" x = O) fields →
  tile_id g = match fields !! 3%nat with
              | Some t => Ok t
              | None => Raise IndexError
              end.
Proof.
  intros Hid Hall. unfold tile_id. rewrite Hid.
  destruct fields as [|f fields]; [reflexivity|].
  rewrite (split_join "_" (f :: fields)) by (discriminate || exact Hall).
  reflexivity.
Qed.

Lemma tile_id_is_fourth_field_witness :
  tile_id example_granule = Ok "T11SQA"%string.
Proof.
  apply (tile_id_is_fourth_field example_granule
           ["OPERA"; "L3"; "DSWx-HLS"; "T11SQA"; "20230801T182919Z"]%string).
  - reflexivity.
  - repeat constructor.
Defined.

(** The tile id exists exactly when the id holds three underscores. *)
Lemma tile_id_Ok_iff (g : Granule) :
  (∃ t, tile_id g = Ok t) ↔ (3 <= count_char "_" (id g))%nat.
Proof.
  unfold tile_id, split.
  pose proof (split_from_length "_" (id g) EmptyString) as Hlen.
  destruct (split_from "_" EmptyString (id g) !! 3%nat) as [t|] eqn:E.
  - apply lookup_lt_Some in E. split; [lia | eauto].
  - apply lookup_ge_None in E. split; [intros [t Ht]; discriminate | lia].
Qed.

Lemma tile_id_Raise (g : Granule) :
  (count_char "_" (id g) < 3)%nat → tile_id g = Raise IndexError.
Proof.
  intros Hlt. unfold tile_id, split.
  pose proof (split_from_length "_" (id g) EmptyString) as Hlen.
  destruct (split_from "_" EmptyString (id g) !! 3%nat) as [t|] eqn:E;
    [|reflexivity].
  apply lookup_lt_Some in E. lia.
Qed.

(** ** search_to_dataframe: outcomes *)

Lemma gen_rows_Raise props : ∀ granules g,
  In g granules → (count_char "_" (id g) < 3)%nat →
  gen_rows props granules = Raise IndexError.
Proof.
  induction granules as [|g0 gs IH]; intros g Hin Hlt; [destruct Hin|].
  simpl. destruct (tile_id g0) as [t|e] eqn:E.
  - destruct Hin as [->|Hin].
    + rewrite tile_id_Raise in E by exact Hlt. discriminate.
    + simpl. rewrite (IH g Hin Hlt). reflexivity.
  - unfold tile_id in E.
    destruct (split (id g0) "_" !! 3%nat); [discriminate|].
    injection E as <-. reflexivity.
Qed.

Lemma gen_rows_Ok props : ∀ granules,
  (∀ g, In g granules → (3 <= count_char "_" (id g))%nat) →
  ∃ rs, gen_rows props granules = Ok rs.
Proof.
  induction granules as [|g0 gs IH]; intros Hall; simpl; [eauto|].
  destruct (proj2 (tile_id_Ok_iff g0)) as [t ->]; [apply Hall; left; reflexivity|].
  destruct IH as [rs ->]; [intros g Hg; apply Hall; right; exact Hg|].
  simpl. eauto.
Qed.

Lemma search_to_dataframe_cons g gs :
  search_to_dataframe (g :: gs)
  = (rows ← gen_rows (elements (all_props (g :: gs))) (g :: gs);
     match rows with
     | [] => Raise ValueError
     | _ => Ok {| df_columns := elements (all_props (g :: gs))
                                ++ ["asset"; "href"; "tile_id"]%string;
                  df_rows := rows |}
     end).
Proof.
  unfold search_to_dataframe.
  destruct (gen_rows (elements (all_props (g :: gs))) (g :: gs)) as [rs|e];
    [|reflexivity].
  destruct rs; reflexivity.
Qed.

Lemma gen_rows_only_IndexError props : ∀ granules e,
  gen_rows props granules = Raise e → e = IndexError.
Proof.
  induction granules as [|g gs IH]; intros e Hrs; simpl in Hrs; [discriminate|].
  destruct (tile_id g) as [t|e'] eqn:E; simpl in Hrs.
  - destruct (gen_rows props gs) as [rest|e''] eqn:E'; simpl in Hrs;
      [discriminate|].
    injection Hrs as <-. apply (IH e'' eq_refl).
  - injection Hrs as <-. unfold tile_id in E.
    destruct (split (id g) "_" !! 3%nat); [discriminate|].
    injection E as <-. reflexivity.
Qed.

(** X2: the outcome of search_to_dataframe on a non-empty search.  It
    raises IndexError when some granule id has fewer than three
    underscores, whatever the other granules are; otherwise it raises
    ValueError when no granule has an asset, and returns a frame when some
    granule has one.  The final assertion (Empty DataFrame) never fails. *)
Theorem search_to_dataframe_outcomes (search : list Granule) :
  search ≠ [] →
  ((∃ g, In g search ∧ (count_char "_" (id g) < 3)%nat) →
   search_to_dataframe search = Raise IndexError)
  ∧ ((∀ g, In g search → (3 <= count_char "_" (id g))%nat) →
     n_pairs search = O →
     search_to_dataframe search = Raise ValueError)
  ∧ ((∀ g, In g search → (3 <= count_char "_" (id g))%nat) →
     n_pairs search ≠ O →
     ∃ df, search_to_dataframe search = Ok df)
  ∧ search_to_dataframe search ≠ Raise (AssertionError "Empty DataFrame").
Proof.
  intros Hne. destruct search as [|g0 gs]; [contradiction|].
  rewrite search_to_dataframe_cons.
  set (search := g0 :: gs) in *.
  set (props := elements (all_props search)).
  split; [|split; [|split]].
  - intros (g & Hg & Hlt).
    rewrite (gen_rows_Raise props search g Hg Hlt). reflexivity.
  - intros Hall Hn. destruct (gen_rows_Ok props search Hall) as [rs Hrs].
    rewrite Hrs. pose proof (gen_rows_length _ _ _ Hrs) as Hlen.
    destruct rs; [reflexivity | simpl in Hlen; lia].
  - intros Hall Hn. destruct (gen_rows_Ok props search Hall) as [rs Hrs].
    rewrite Hrs. pose proof (gen_rows_length _ _ _ Hrs) as Hlen.
    destruct rs; [simpl in Hlen; lia | simpl; eauto].
  - destruct (gen_rows props search) as [rs|e] eqn:Hrs.
    + destruct rs; discriminate.
    + apply gen_rows_only_IndexError in Hrs as ->. discriminate.
Qed.

Lemma search_to_dataframe_outcomes_witness :
  ((∃ g, In g [example_granule] ∧ (count_char "_" (id g) < 3)%nat) →
   search_to_dataframe [example_granule] = Raise IndexError)
  ∧ ((∀ g, In g [example_granule] → (3 <= count_char "_" (id g))%nat) →
     n_pairs [example_granule] = O →
     search_to_dataframe [example_granule] = Raise ValueError)
  ∧ ((∀ g, In g [example_granule] → (3 <= count_char "_" (id g))%nat) →
     n_pairs [example_granule] ≠ O →
     ∃ df, search_to_dataframe [example_granule] = Ok df)
  ∧ search_to_dataframe [example_granule] ≠ Raise (AssertionError "Empty DataFrame").
Proof.
  apply (search_to_dataframe_outcomes [example_granule]). discriminate.
Defined.

(** ** search_to_dataframe: the frame *)

Lemma search_to_dataframe_Ok_inv search df :
  search_to_dataframe search = Ok df →
  df_columns df = elements (all_props search) ++ ["asset"; "href"; "tile_id"]%string
  ∧ gen_rows (elements (all_props search)) search = Ok (df_rows df).
Proof.
  destruct search as [|g gs]; [discriminate|].
  rewrite search_to_dataframe_cons.
  destruct (gen_rows _ _) as [rs|e]; simpl; [|discriminate].
  destruct rs; [discriminate|]. intros [= <-]. split; reflexivity.
Qed.

Lemma gen_rows_sound props : ∀ granules rs r,
  gen_rows props granules = Ok rs → In r rs →
  ∃ g a t, In g granules ∧ In a (List.map fst (assets g))
           ∧ tile_id g = Ok t ∧ r = row_of props g a t.
Proof.
  induction granules as [|g gs IH]; intros rs r Hrs Hr; simpl in Hrs.
  - injection Hrs as <-. destruct Hr.
  - apply bind_Ok_inv in Hrs as (t & Ht & Hrs).
    apply bind_Ok_inv in Hrs as (rest & Hrest & Hrs).
    injection Hrs as <-. apply in_app_or in Hr as [Hr|Hr].
    + unfold granule_rows in Hr. apply in_map_iff in Hr as (a & <- & Ha).
      exists g, a, t. repeat split; [left; reflexivity | exact Ha | exact Ht].
    + destruct (IH rest r Hrest Hr) as (g' & a & t' & Hg & Ha & Ht' & ->).
      exists g', a, t'. repeat split; [right; exact Hg | exact Ha | exact Ht'].
Qed.

Lemma gen_rows_complete props : ∀ granules rs g a,
  gen_rows props granules = Ok rs → In g granules →
  In a (List.map fst (assets g)) →
  ∃ t, tile_id g = Ok t ∧ In (row_of props g a t) rs.
Proof.
  induction granules as [|g0 gs IH]; intros rs g a Hrs Hg Ha; [destruct Hg|].
  simpl in Hrs.
  apply bind_Ok_inv in Hrs as (t & Ht & Hrs).
  apply bind_Ok_inv in Hrs as (rest & Hrest & Hrs).
  injection Hrs as <-. destruct Hg as [->|Hg].
  - exists t. split; [exact Ht|]. apply in_or_app. left.
    unfold granule_rows. apply in_map_iff. exists a. split; [reflexivity | exact Ha].
  - destruct (IH rest g a Hrest Hg Ha) as (t' & Ht' & Hin).
    exists t'. split; [exact Ht'|]. apply in_or_app. right. exact Hin.
Qed.

Lemma asset_href_In (assets : list (string * string)) a h :
  NoDup (List.map fst assets) → In (a, h) assets → asset_href assets a = h.
Proof.
  induction assets as [|[k h0] assets IH]; intros Hnd Hin; [destruct Hin|].
  simpl in *. apply NoDup_cons in Hnd as [Hk Hnd].
  destruct (String.eqb k a) eqn:E.
  - apply String.eqb_eq in E as ->. destruct Hin as [[= ->]|Hin]; [reflexivity|].
    exfalso. apply Hk, list_elem_of_In, in_map_iff. exists (a, h). auto.
  - destruct Hin as [[= -> ->]|Hin]; [rewrite String.eqb_refl in E; discriminate|].
    apply IH; assumption.
Qed.

Lemma all_props_In granules k :
  k ∈ all_props granules ↔ ∃ g, In g granules ∧ is_Some (properties g !! k).
Proof.
  unfold all_props. rewrite elem_of_union_list. split.
  - intros (X & HX & Hk). apply list_elem_of_In, in_map_iff in HX as (g & <- & Hg).
    exists g. split; [exact Hg | apply elem_of_dom, Hk].
  - intros (g & Hg & Hk). exists (dom (properties g)). split.
    + apply list_elem_of_In, in_map_iff. exists g. auto.
    + apply elem_of_dom, Hk.
Qed.

(** X3: a frame returned by search_to_dataframe is rectangular.  Its
    columns are the property names followed by asset, href and tile_id;
    the property names are pairwise distinct and include every property
    key of every granule; and every row has one cell per column. *)
Theorem search_to_dataframe_rectangular (search : list Granule) (df : DataFrame) :
  search_to_dataframe search = Ok df →
  df_columns df = elements (all_props search) ++ ["asset"; "href"; "tile_id"]%string
  ∧ NoDup (elements (all_props search))
  ∧ (∀ g k, In g search → is_Some (properties g !! k) → In k (df_columns df))
  ∧ Forall (fun r => length r = length (df_columns df)) (df_rows df).
Proof.
  intros Hok. apply search_to_dataframe_Ok_inv in Hok as [Hcols Hrows].
  split; [exact Hcols|]. split; [apply NoDup_elements|]. split.
  - intros g k Hg Hk. rewrite Hcols. apply in_or_app. left.
    apply list_elem_of_In, elem_of_elements, all_props_In. eauto.
  - apply List.Forall_forall. intros r Hr.
    destruct (gen_rows_sound _ _ _ _ Hrows Hr) as (g & a & t & _ & _ & _ & ->).
    rewrite Hcols. unfold row_of.
    rewrite !length_app, List.length_map. reflexivity.
Qed.

Lemma search_to_dataframe_rectangular_witness :
  let df := {| df_columns := ["eo:cloud_cover"; "asset"; "href"; "tile_id"]%string;
               df_rows := [[PyInt 5; PyStr "0_B01_WTR";
                            PyStr "https://example.org/B01_WTR.tif"; PyStr "T11SQA"];
                           [PyInt 5; PyStr "0_B02_BWTR";
                            PyStr "https://example.org/B02_BWTR.tif"; PyStr "T11SQA"]] |} in
  df_columns df
    = elements (all_props [example_granule]) ++ ["asset"; "href"; "tile_id"]%string
  ∧ NoDup (elements (all_props [example_granule]))
  ∧ (∀ g k, In g [example_granule] → is_Some (properties g !! k) → In k (df_columns df))
  ∧ Forall (fun r => length r = length (df_columns df)) (df_rows df).
Proof.
  apply (search_to_dataframe_rectangular [example_granule]).
  vm_compute. reflexivity.
Defined.

(** X4: the rows of a returned frame are exactly the (granule, asset)
    pairs of the search.  Every row is the row of some granule of the
    search and one of its asset keys: it holds under each property column
    the granule's value of that property, or None when the granule lacks
    it, then the asset key, the asset's href and the granule's tile id.
    Conversely every asset of every granule has its row. *)
Theorem search_to_dataframe_rows (search : list Granule) (df : DataFrame) :
  search_to_dataframe search = Ok df →
  (∀ r, In r (df_rows df) →
     ∃ g a t, In g search ∧ In a (List.map fst (assets g)) ∧ tile_id g = Ok t
       ∧ r = List.map (fun k => default PyNone (properties g !! k))
                      (elements (all_props search))
             ++ [PyStr a; PyStr (asset_href (assets g) a); PyStr t])
  ∧ (∀ g a h, In g search → NoDup (List.map fst (assets g)) → In (a, h) (assets g) →
       ∃ t, tile_id g = Ok t
         ∧ In (List.map (fun k => default PyNone (properties g !! k))
                        (elements (all_props search))
               ++ [PyStr a; PyStr h; PyStr t]) (df_rows df)).
Proof.
  intros Hok. apply search_to_dataframe_Ok_inv in Hok as [_ Hrows]. split.
  - intros r Hr. apply (gen_rows_sound _ _ _ _ Hrows Hr).
  - intros g a h Hg Hnd Hin.
    destruct (gen_rows_complete _ _ _ g a Hrows Hg) as (t & Ht & Hrow).
    { apply in_map_iff. exists (a, h). auto. }
    exists t. split; [exact Ht|].
    unfold row_of in Hrow. rewrite (asset_href_In _ _ _ Hnd Hin) in Hrow.
    exact Hrow.
Qed.

Lemma search_to_dataframe_rows_witness :
  ∃ t, tile_id example_granule = Ok t
    ∧ In (List.map (fun k => default PyNone (properties example_granule !! k))
                   (elements (all_props [example_granule]))
          ++ [PyStr "0_B02_BWTR"; PyStr "https://example.org/B02_BWTR.tif"; PyStr t])
         [[PyInt 5; PyStr "0_B01_WTR";
           PyStr "https://example.org/B01_WTR.tif"; PyStr "T11SQA"];
          [PyInt 5; PyStr "0_B02_BWTR";
           PyStr "https://example.org/B02_BWTR.tif"; PyStr "T11SQA"]].
Proof.
  apply (proj2 (search_to_dataframe_rows [example_granule]
                  {| df_columns := ["eo:cloud_cover"; "asset"; "href"; "tile_id"]%string;
                     df_rows := [[PyInt 5; PyStr "0_B01_WTR";
                                  PyStr "https://example.org/B01_WTR.tif"; PyStr "T11SQA"];
                                 [PyInt 5; PyStr "0_B02_BWTR";
                                  PyStr "https://example.org/B02_BWTR.tif"; PyStr "T11SQA"]] |}
                  ltac:(vm_compute; reflexivity))
           example_granule "0_B02_BWTR"%string "https://example.org/B02_BWTR.tif"%string).
  - left. reflexivity.
  - simpl. apply NoDup_cons. split; [|apply NoDup_singleton].
    rewrite list_elem_of_In. simpl. intros [H|[]]. discriminate H.
  - right. left. reflexivity.
Defined.

(** ** relabel_pixels: shape, labels and coverage *)

Lemma da_where_ne_shape data old new :
  List.map length (da_where_ne data old new) = List.map length data.
Proof.
  unfold da_where_ne. rewrite List.map_map. apply map_ext.
  intros row. apply List.length_map.
Qed.

(** X5: relabel_pixels keeps the shape of the raster: the output has as
    many rows as the data and each row keeps its length, so a position
    holds a pixel in the output exactly when it does in the data. *)
Theorem relabel_preserves_shape
    data values null_val transparent_val replace_null start out m :
  relabel_pixels data values null_val transparent_val replace_null start
    = Ok (out, m) →
  List.map length out = List.map length data
  ∧ shape out = shape data
  ∧ ∀ i j, is_Some (da_get out i j) ↔ is_Some (da_get data i j).
Proof.
  intros Hok.
  apply relabel_pixels_Ok_inv in Hok as (codes & new_values & _ & _ & _ & _ & ->).
  assert (List.map length
            (relabel_loop (collapse_null data null_val transparent_val replace_null) m)
          = List.map length data) as Hshape.
  { rewrite relabel_loop_shape. unfold collapse_null.
    destruct replace_null; [apply da_where_ne_shape | reflexivity]. }
  split; [exact Hshape|]. split.
  - unfold shape.
    destruct (relabel_loop _ m) as [|row rows], data as [|row' rows'];
      simpl in Hshape; try discriminate; [reflexivity|].
    injection Hshape as Hrow Hrows. simpl. f_equal; [|exact Hrow].
    apply (f_equal length) in Hrows. rewrite !List.length_map in Hrows.
    f_equal. exact Hrows.
  - intros i j. rewrite relabel_loop_get. unfold collapse_null.
    destruct replace_null; [rewrite da_where_ne_get|];
      destruct (da_get data i j); simpl; split; intros [x Hx];
        try discriminate; eauto.
Qed.

Lemma relabel_preserves_shape_witness :
  List.map length [[0; 1; 0]; [3; 4; 2]] = List.map length [[0; 1; 255]; [252; 253; 2]]
  ∧ shape [[0; 1; 0]; [3; 4; 2]] = shape [[0; 1; 255]; [252; 253; 2]]
  ∧ ∀ i j, is_Some (da_get [[0; 1; 0]; [3; 4; 2]] i j)
           ↔ is_Some (da_get [[0; 1; 255]; [252; 253; 2]] i j).
Proof.
  apply (relabel_preserves_shape
           [[0; 1; 255]; [252; 253; 2]] [0; 1; 2; 252; 253; 254; 255] 255 0 true 0
           [[0; 1; 0]; [3; 4; 2]]
           [(0, 0); (1, 1); (2, 2); (252, 3); (253, 4); (254, 5)]).
  vm_compute. reflexivity.
Defined.

Lemma filter_none {A} (f : A → bool) (l : list A) :
  (∀ x, In x l → f x = false) → List.filter f l = [].
Proof.
  induction l as [|a l IH]; intros Hall; simpl; [reflexivity|].
  rewrite (Hall a (or_introl eq_refl)). apply IH.
  intros x Hx. apply Hall. right. exact Hx.
Qed.

(** In a sorted array of distinct codes the rank of a code is its index. *)
Lemma sorted_rank_is_index (l : list Z) : ∀ k c,
  StronglySorted Z.le l → NoDup l → l !! k = Some c → rank_in l c = k.
Proof.
  unfold rank_in.
  induction l as [|a l IH]; intros k c Hs Hnd Hk; [discriminate|].
  apply StronglySorted_inv in Hs as [Hs Hall].
  apply NoDup_cons in Hnd as [Ha Hnd].
  rewrite List.Forall_forall in Hall.
  destruct k as [|k]; simpl in Hk.
  - injection Hk as ->. simpl. rewrite Z.ltb_irrefl.
    rewrite filter_none; [reflexivity|].
    intros x Hx. apply Z.ltb_ge. apply Hall, Hx.
  - assert (In c l) as Hc by (apply list_elem_of_In, list_elem_of_lookup; eauto).
    assert (a < c) as Hlt.
    { specialize (Hall c Hc).
      assert (c ≠ a) by (intros ->; apply Ha, list_elem_of_In, Hc). lia. }
    simpl. apply Z.ltb_lt in Hlt. rewrite Hlt. simpl.
    f_equal. apply IH; assumption.
Qed.

(** X6: for pairwise distinct category codes and labels that fit in a
    uint8, the label of a remaining code is start plus its rank, the number
    of remaining codes below it.  The label of a code therefore depends on
    which other codes are supplied. *)
Theorem relabel_label_is_rank
    data values null_val transparent_val replace_null start out m codes c :
  NoDup values →
  relabel_pixels data values null_val transparent_val replace_null start
    = Ok (out, m) →
  remaining_codes data values null_val replace_null = Ok codes →
  start + Z.of_nat (length codes) <= 256 →
  In c codes →
  dict_get m c = Some (start + Z.of_nat (rank_in codes c)).
Proof.
  intros Hnd Hok Hcodes Hfit Hc.
  destruct (relabel_dict_distinct _ _ _ _ _ _ _ _ _ Hnd Hok Hcodes Hfit) as [-> _].
  pose proof (remaining_codes_sorted _ _ _ _ _ Hcodes) as Hsorted.
  pose proof (remaining_codes_NoDup _ _ _ _ _ Hcodes Hnd) as Hnd'.
  apply list_elem_of_In, list_elem_of_lookup in Hc as [k Hk].
  rewrite (sorted_rank_is_index codes k c Hsorted Hnd' Hk).
  apply (dict_get_combine_NoDup codes _ k); [exact Hnd' | exact Hk|].
  apply label_range_lookup. apply (lookup_lt_Some _ _ _ Hk).
Qed.

Lemma relabel_label_is_rank_witness :
  dict_get [(0, 0); (1, 1); (2, 2); (253, 3); (254, 4)] 253
  = Some (0 + Z.of_nat (rank_in [0; 1; 2; 253; 254] 253)).
Proof.
  apply (relabel_label_is_rank [[0; 253]] [0; 1; 2; 253; 254; 255] 255 0 true 0
           [[0; 3]]).
  - repeat (apply NoDup_cons; split; [rewrite list_elem_of_In; simpl; lia|]).
    apply NoDup_nil. exact I.
  - vm_compute. reflexivity.
  - vm_compute. reflexivity.
  - simpl. lia.
  - simpl. tauto.
Defined.

(** The label of a code changes with the codes supplied: the notebooks
    pass [0, 1, 2, 252, 253, 254, 255] in one place and
    [0, 1, 2, 253, 254, 255] in another, and the code 253 is relabelled 4
    in the first and 3 in the second. *)
Example label_of_253_differs :
  (snd <$> relabel_pixels_default [[253]] [0; 1; 2; 252; 253; 254; 255])
    = Ok [(0, 0); (1, 1); (2, 2); (252, 3); (253, 4); (254, 5)]
  ∧ (snd <$> relabel_pixels_default [[253]] [0; 1; 2; 253; 254; 255])
    = Ok [(0, 0); (1, 1); (2, 2); (253, 3); (254, 4)].
Proof. split; vm_compute; reflexivity. Qed.

Lemma relabel_default_dict
    data values null_val transparent_val replace_null out m codes :
  values ≠ [] → NoDup values →
  relabel_pixels data values null_val transparent_val replace_null 0 = Ok (out, m) →
  remaining_codes data values null_val replace_null = Ok codes →
  m = combine codes (label_range 0 (length codes))
  ∧ In transparent_val (label_range 0 (length codes))
  ∧ (∀ p v, dict_get m p = Some v → pixel_loop m p = v).
Proof.
  intros Hne Hnd Hok Hcodes.
  destruct (remaining_codes_uint8 _ _ _ _ _ Hne Hcodes) as [Hge Hlt].
  pose proof (remaining_codes_sorted _ _ _ _ _ Hcodes) as Hsorted.
  pose proof (remaining_codes_NoDup _ _ _ _ _ Hcodes Hnd) as Hnd'.
  assert (0 + Z.of_nat (length codes) <= 256) as Hfit.
  { destruct (length codes) as [|k] eqn:Hlen; [lia|].
    destruct (lookup_lt_is_Some_2 codes k) as [x Hx]; [lia|].
    pose proof (sorted_distinct_ge_index codes 0 k x Hsorted Hnd' Hge Hx).
    rewrite List.Forall_forall in Hlt.
    assert (In x codes) as Hin by (apply list_elem_of_In, list_elem_of_lookup; eauto).
    specialize (Hlt x Hin). lia. }
  destruct (relabel_dict_distinct _ _ _ _ _ _ _ _ _ Hnd Hok Hcodes Hfit) as [Hm Htv].
  destruct (combine_keys_values codes (label_range 0 (length codes)))
    as [Hk Hv]; [rewrite label_range_length; reflexivity|].
  split; [exact Hm|]. split; [exact Htv|].
  intros p v Hget. apply pixel_loop_hit; [| | |exact Hget].
  - rewrite Hm. unfold dict_keys. rewrite Hk. exact Hsorted.
  - rewrite Hm. unfold dict_keys. rewrite Hk. exact Hnd'.
  - intros old new Hin. rewrite Hm in Hin.
    apply In_combine_lookup in Hin as (k & Hold & Hnew).
    pose proof (lookup_lt_Some _ _ _ Hold) as Hk'.
    rewrite label_range_lookup in Hnew by exact Hk'. injection Hnew as <-.
    apply (sorted_distinct_ge_index codes 0 k old); assumption.
Qed.

Lemma dict_get_combine_value (ks : list Z) (vs : list Z) k v :
  dict_get (combine ks vs) k = Some v → In v vs.
Proof.
  intros Hget. apply dict_get_In in Hget. apply in_combine_r in Hget. exact Hget.
Qed.

(** X7: with the default start and pairwise distinct supplied codes, every
    pixel that holds a remaining category code, or the missing code when
    replace_null is true, ends as a label in [0, n), n the number of
    remaining codes: the relabelled raster indexes a colormap of n
    colours. *)
Theorem relabel_output_in_label_range
    data values null_val transparent_val replace_null out m codes i j p :
  values ≠ [] → NoDup values →
  relabel_pixels data values null_val transparent_val replace_null 0 = Ok (out, m) →
  remaining_codes data values null_val replace_null = Ok codes →
  da_get data i j = Some p →
  In p codes ∨ (replace_null = true ∧ p = null_val) →
  ∃ q, da_get out i j = Some q ∧ 0 <= q < Z.of_nat (length codes).
Proof.
  intros Hne Hnd Hok Hcodes Hpx Hp.
  destruct (relabel_default_dict _ _ _ _ _ _ _ _ Hne Hnd Hok Hcodes)
    as (Hm & Htv & Hloop).
  destruct (relabel_pixels_Ok_inv _ _ _ _ _ _ _ _ Hok)
    as (codes' & new_values & _ & _ & _ & _ & Hout).
  assert (∀ x, In x (dict_keys m) ∨ In x (label_range 0 (length codes)) →
          In (pixel_loop m x) (label_range 0 (length codes))) as Hin.
  { intros x Hx.
    destruct (dict_get m x) as [v|] eqn:Hget.
    - rewrite (Hloop x v Hget). rewrite Hm in Hget.
      apply dict_get_combine_value in Hget. exact Hget.
    - destruct Hx as [Hx|Hx].
      + destruct (dict_key_get _ _ Hx) as [v Hv]. congruence.
      + rewrite pixel_loop_not_key; [exact Hx|].
        intros Hkey. destruct (dict_key_get _ _ Hkey) as [v Hv]. congruence. }
  assert (dict_keys m = codes) as Hkeys.
  { rewrite Hm. unfold dict_keys.
    apply (combine_keys_values codes (label_range 0 (length codes))).
    rewrite label_range_length. reflexivity. }
  rewrite Hout, relabel_loop_get. unfold collapse_null.
  destruct Hp as [Hp|[-> ->]].
  - assert (da_get (if replace_null
                    then da_where_ne data null_val transparent_val else data) i j
            = Some p) as ->.
    { destruct replace_null; [|exact Hpx].
      rewrite da_where_ne_get, Hpx. simpl.
      assert (p ≠ null_val) as Hnull.
      { intros ->. apply (remaining_codes_no_null _ _ _ _ Hcodes), Hp. }
      apply Z.eqb_neq in Hnull. rewrite Hnull. reflexivity. }
    simpl. eexists. split; [reflexivity|].
    apply label_range_In with (start := 0) (n := length codes).
    apply Hin. left. rewrite Hkeys. exact Hp.
  - rewrite da_where_ne_get, Hpx. simpl. rewrite Z.eqb_refl.
    eexists. split; [reflexivity|].
    apply label_range_In with (start := 0) (n := length codes).
    apply Hin. right. exact Htv.
Qed.

Lemma relabel_output_in_label_range_witness :
  ∃ q, da_get [[0; 1; 0]; [3; 4; 2]] 0 2 = Some q
       ∧ 0 <= q < Z.of_nat (length [0; 1; 2; 252; 253; 254]).
Proof.
  apply (relabel_output_in_label_range
           [[0; 1; 255]; [252; 253; 2]] [0; 1; 2; 252; 253; 254; 255] 255 0 true
           [[0; 1; 0]; [3; 4; 2]]
           [(0, 0); (1, 1); (2, 2); (252, 3); (253, 4); (254, 5)]
           [0; 1; 2; 252; 253; 254] 0%nat 2%nat 255).
  - discriminate.
  - repeat (apply NoDup_cons; split; [rewrite list_elem_of_In; simpl; lia|]).
    apply NoDup_nil. exact I.
  - vm_compute. reflexivity.
  - vm_compute. reflexivity.
  - reflexivity.
  - right. split; reflexivity.
Defined.

Lemma relabel_pixels_no_codes data values null_val transparent_val replace_null start :
  remaining_codes data values null_val replace_null = Ok [] →
  relabel_pixels data values null_val transparent_val replace_null start
  = Raise (AssertionError "transparent_val not in new_values").
Proof. intros Hcodes. rewrite relabel_pixels_unfold, Hcodes. reflexivity. Qed.

Lemma where_ne_all a x : (∀ c, In c a → c = x) → np.where_ne a x = [].
Proof.
  intros Hall. apply filter_none. intros c Hc.
  rewrite (Hall c Hc), Z.eqb_refl. reflexivity.
Qed.

Lemma np_sort_In a c : In c (np.sort a) ↔ In c a.
Proof. rewrite <- !list_elem_of_In, np_sort_Permutation. reflexivity. Qed.

Lemma np_unique_In a c : In c (np.unique a) ↔ In c a.
Proof.
  unfold np.unique.
  rewrite <- !list_elem_of_In, merge_sort_Permutation, elem_of_remove_dups.
  reflexivity.
Qed.

(** X8: relabel_pixels needs a category besides the missing code.  With
    replace_null true it raises AssertionError when every supplied code is
    the missing code, and, when the codes are derived from the data, when
    the raster holds nothing but the missing code; with no code supplied
    and a raster without pixels it raises AssertionError whatever
    replace_null is. *)
Theorem relabel_needs_a_category data values null_val transparent_val start :
  (values ≠ [] → (∀ c, In c values → c = null_val) → 0 <= null_val < 256 →
   relabel_pixels data values null_val transparent_val true start
   = Raise (AssertionError "transparent_val not in new_values"))
  ∧ ((∀ p, In p (da_flatten data) → p = null_val) →
     relabel_pixels data [] null_val transparent_val true start
     = Raise (AssertionError "transparent_val not in new_values"))
  ∧ (∀ replace_null, da_flatten data = [] →
     relabel_pixels data [] null_val transparent_val replace_null start
     = Raise (AssertionError "transparent_val not in new_values")).
Proof.
  split; [|split].
  - intros Hne Hall Hnull. apply relabel_pixels_no_codes.
    unfold remaining_codes, sorted_codes. destruct values as [|v values];
      [contradiction|].
    unfold np.array_uint8.
    replace (forallb in_uint8 (v :: values)) with true.
    + simpl. rewrite where_ne_all; [reflexivity|].
      intros c Hc. apply (proj1 (np_sort_In _ _)) in Hc. apply Hall, Hc.
    + symmetry. apply forallb_forall. intros c Hc.
      rewrite (Hall c Hc). apply in_uint8_spec, Hnull.
  - intros Hall. apply relabel_pixels_no_codes.
    unfold remaining_codes, sorted_codes. simpl.
    rewrite where_ne_all; [reflexivity|].
    intros c Hc. apply (proj1 (np_sort_In _ _)), (proj1 (np_unique_In _ _)) in Hc.
    apply Hall, Hc.
  - intros replace_null Hempty. apply relabel_pixels_no_codes.
    unfold remaining_codes, sorted_codes. rewrite Hempty.
    destruct replace_null; reflexivity.
Qed.

Lemma relabel_needs_a_category_witness :
  relabel_pixels [[255; 0]] [255; 255] 255 0 true 0
  = Raise (AssertionError "transparent_val not in new_values").
Proof.
  apply (proj1 (relabel_needs_a_category [[255; 0]] [255; 255] 255 0 0)).
  - discriminate.
  - simpl. intros c [<-|[<-|[]]]; reflexivity.
  - lia.
Defined.

Lemma dict_set_keys d k v x :
  In x (dict_keys (dict_set d k v)) ↔ x = k ∨ In x (dict_keys d).
Proof.
  unfold dict_keys. induction d as [|[k' v'] d IH]; simpl.
  - intuition congruence.
  - destruct (k' =? k) eqn:E; simpl.
    + apply Z.eqb_eq in E as ->. intuition congruence.
    + rewrite IH. intuition congruence.
Qed.

Lemma dict_fold_keys pairs : ∀ acc x,
  In x (dict_keys (fold_left (fun d kv => dict_set d (fst kv) (snd kv)) pairs acc))
  ↔ In x (dict_keys acc) ∨ In x (List.map fst pairs).
Proof.
  induction pairs as [|[k v] pairs IH]; intros acc x; simpl.
  - tauto.
  - rewrite IH, dict_set_keys. simpl. intuition congruence.
Qed.

(** The keys of [dict(pairs)] are the first components of the pairs. *)
Lemma dict_of_keys pairs x :
  In x (dict_keys (dict_of pairs)) ↔ In x (List.map fst pairs).
Proof. unfold dict_of. rewrite dict_fold_keys. simpl. tauto. Qed.

Lemma da_get_In_flatten (data : DataArray) i j p :
  da_get data i j = Some p → In p (da_flatten data).
Proof.
  unfold da_get, da_flatten. intros Hget.
  destruct (data !! i) as [row|] eqn:Hrow; [|discriminate].
  apply in_concat. exists row. split.
  - apply list_elem_of_In, list_elem_of_lookup. eauto.
  - apply list_elem_of_In, list_elem_of_lookup. eauto.
Qed.

(** X9: when no category code is supplied the codes are derived from the
    data, and the dictionary of a successful call has an entry for every
    pixel value of the raster, the missing code apart when replace_null is
    true: no pixel is left without a label. *)
Theorem relabel_derived_codes_cover_data
    data null_val transparent_val replace_null start out m i j p :
  relabel_pixels data [] null_val transparent_val replace_null start = Ok (out, m) →
  da_get data i j = Some p →
  (replace_null = true → p ≠ null_val) →
  ∃ v, dict_get m p = Some v.
Proof.
  intros Hok Hpx Hnull.
  apply relabel_pixels_Ok_inv in Hok
    as (codes & new_values & Hcodes & Hnew & _ & -> & _).
  apply dict_key_get, dict_of_keys.
  destruct (combine_keys_values codes new_values) as [-> _].
  { symmetry. apply (arange_uint8_length _ _ _ Hnew). }
  unfold remaining_codes, sorted_codes in Hcodes. simpl in Hcodes.
  injection Hcodes as <-.
  assert (In p (np.sort (np.unique (da_flatten data)))) as Hin.
  { apply (proj2 (np_sort_In _ _)), (proj2 (np_unique_In _ _)),
      (da_get_In_flatten _ i j), Hpx. }
  destruct replace_null; [|exact Hin].
  apply where_ne_In. split; [exact Hin | apply Hnull; reflexivity].
Qed.

Lemma relabel_derived_codes_cover_data_witness :
  ∃ v, dict_get [(1, 0); (2, 1); (253, 2)] 253 = Some v.
Proof.
  apply (relabel_derived_codes_cover_data [[1; 255]; [253; 2]] 255 0 true 0
           [[0; 0]; [2; 1]] [(1, 0); (2, 1); (253, 2)] 1%nat 0%nat 253).
  - vm_compute. reflexivity.
  - reflexivity.
  - intros _ H. discriminate H.
Defined.

Lemma np_sort_Permutation_eq a b : a ≡ₚ b → np.sort a = np.sort b.
Proof.
  intros Hperm. apply (StronglySorted_unique Z.le).
  - apply np_sort_sorted.
  - apply np_sort_sorted.
  - rewrite !np_sort_Permutation. exact Hperm.
Qed.

Lemma array_uint8_Permutation a b :
  a ≡ₚ b → forallb in_uint8 a = forallb in_uint8 b.
Proof.
  intros Hperm. apply eq_true_iff_eq. rewrite !forallb_forall. split.
  - intros Ha x Hx. apply Ha, list_elem_of_In. rewrite Hperm.
    apply list_elem_of_In, Hx.
  - intros Hb x Hx. apply Hb, list_elem_of_In. rewrite <- Hperm.
    apply list_elem_of_In, Hx.
Qed.

(** X10: the order in which the category codes are listed does not
    matter: two lists of codes that are permutations of each other give the
    same result, relabelled raster and dictionary alike. *)
Theorem relabel_values_order_irrelevant
    data values values' null_val transparent_val replace_null start :
  values ≡ₚ values' →
  relabel_pixels data values null_val transparent_val replace_null start
  = relabel_pixels data values' null_val transparent_val replace_null start.
Proof.
  intros Hperm. rewrite !relabel_pixels_unfold.
  assert (remaining_codes data values null_val replace_null
          = remaining_codes data values' null_val replace_null) as ->;
    [|reflexivity].
  unfold remaining_codes. f_equal. unfold sorted_codes.
  destruct values as [|v values], values' as [|v' values'].
  - reflexivity.
  - apply Permutation_nil_l in Hperm. discriminate.
  - apply Permutation_nil_r in Hperm. discriminate.
  - unfold np.array_uint8.
    rewrite (array_uint8_Permutation _ _ Hperm).
    destruct (forallb in_uint8 (v' :: values')); simpl; [|reflexivity].
    rewrite (np_sort_Permutation_eq _ _ Hperm). reflexivity.
Qed.

Lemma relabel_values_order_irrelevant_witness :
  relabel_pixels [[0; 253]; [255; 1]] [253; 0; 255; 2; 1] 255 0 true 0
  = relabel_pixels [[0; 253]; [255; 1]] [0; 1; 2; 253; 255] 255 0 true 0.
Proof.
  apply (relabel_values_order_irrelevant [[0; 253]; [255; 1]]
           [253; 0; 255; 2; 1] [0; 1; 2; 253; 255] 255 0 true 0).
  apply (Permutation_trans (l' := [0; 253; 255; 2; 1])); [apply perm_swap|].
  apply perm_skip.
  apply (Permutation_trans (l' := [255; 253; 2; 1])); [apply perm_swap|].
  apply (Permutation_trans (l' := [255; 2; 253; 1])); [apply perm_skip, perm_swap|].
  apply (Permutation_trans (l' := [255; 2; 1; 253]));
    [apply perm_skip, perm_skip, perm_swap|].
  apply (Permutation_trans (l' := [2; 255; 1; 253])); [apply perm_swap|].
  apply (Permutation_trans (l' := [2; 1; 255; 253])); [apply perm_skip, perm_swap|].
  apply (Permutation_trans (l' := [1; 2; 255; 253])); [apply perm_swap|].
  apply perm_skip, perm_skip, perm_swap.
Defined.

Lemma relabel_loop_fixed (m : pydict) : ∀ data,
  (∀ old new, In (old, new) m → new = old) → relabel_loop data m = data.
Proof.
  unfold relabel_loop.
  induction m as [|[old new] m IH]; intros data Hall; simpl; [reflexivity|].
  rewrite (Hall old new (or_introl eq_refl)), Z.eqb_refl.
  apply IH. intros o n Hin. apply Hall. right. exact Hin.
Qed.

(** X11: codes that are already the labels are left alone.  When the
    remaining codes are start, start+1, ..., start+n-1 themselves (fitting
    in a uint8), a successful call maps every code to itself and changes
    nothing in the raster but the missing-value collapse. *)
Theorem relabel_dense_codes_unchanged
    data values null_val transparent_val replace_null start out m n :
  relabel_pixels data values null_val transparent_val replace_null start
    = Ok (out, m) →
  remaining_codes data values null_val replace_null = Ok (label_range start n) →
  start + Z.of_nat n <= 256 →
  out = collapse_null data null_val transparent_val replace_null
  ∧ (∀ c v, dict_get m c = Some v → v = c)
  ∧ (∀ c, start <= c < start + Z.of_nat n → dict_get m c = Some c).
Proof.
  intros Hok Hcodes Hfit.
  apply relabel_pixels_Ok_inv in Hok
    as (codes & new_values & Hcodes' & Hnew & _ & -> & ->).
  rewrite Hcodes in Hcodes'. injection Hcodes' as <-.
  rewrite label_range_length in Hnew.
  apply arange_uint8_fits in Hnew as ->; [|exact Hfit].
  assert (∀ old new,
            In (old, new) (dict_of (combine (label_range start n) (label_range start n))) →
            new = old) as Hsame.
  { intros old new Hin.
    apply dict_of_In, In_combine_lookup in Hin as (k & Hold & Hnew).
    congruence. }
  split; [apply relabel_loop_fixed, Hsame|]. split.
  - intros c v Hget. apply dict_get_In in Hget. apply (Hsame c v Hget).
  - intros c Hc.
    destruct (dict_key_get (dict_of (combine (label_range start n) (label_range start n))) c)
      as [v Hv].
    { apply dict_of_keys.
      destruct (combine_keys_values (label_range start n) (label_range start n))
        as [-> _]; [reflexivity|].
      apply label_range_In. exact Hc. }
    rewrite Hv. f_equal. apply dict_get_In in Hv. apply (Hsame c v Hv).
Qed.

Lemma relabel_dense_codes_unchanged_witness :
  [[0; 1]; [2; 0]] = collapse_null [[0; 1]; [2; 255]] 255 0 true
  ∧ (∀ c v, dict_get [(0, 0); (1, 1); (2, 2)] c = Some v → v = c)
  ∧ (∀ c, 0 <= c < 0 + Z.of_nat 3 → dict_get [(0, 0); (1, 1); (2, 2)] c = Some c).
Proof.
  apply (relabel_dense_codes_unchanged [[0; 1]; [2; 255]] [0; 1; 2; 255] 255 0 true 0
           [[0; 1]; [2; 0]] [(0, 0); (1, 1); (2, 2)] 3).
  - vm_compute. reflexivity.
  - vm_compute. reflexivity.
  - lia.
Defined.

(** ** Mosaics of any number of sources *)

Lemma merge_with_get method first rest r c :
  let sources := first :: rest in
  let top := union_top sources (row_off first) in
  let left := union_left sources (col_off first) in
  let bottom := union_bottom sources (row_off first + height first) in
  let right := union_right sources (col_off first + width first) in
  top <= r < bottom → left <= c < right →
  ∃ m, merge_with method sources = Ok m
    ∧ m_row_off m = top ∧ m_col_off m = left
    ∧ mosaic_get m r c
      = Some (fold_left (paint_pixel method (nodata first) r c) sources
                        (nodata first)).
Proof.
  intros sources top left bottom right Hr Hc.
  eexists. split; [reflexivity|].
  fold sources top left bottom right.
  split; [reflexivity|]. split; [reflexivity|].
  unfold mosaic_get, frame_get. simpl.
  fold sources top left bottom right.
  replace (top <=? r) with true by (symmetry; apply Z.leb_le; lia).
  replace (left <=? c) with true by (symmetry; apply Z.leb_le; lia).
  simpl.
  change (fold_left (paint method (nodata first) top left) rest
            (paint method (nodata first) top left ?d first))
    with (fold_left (paint method (nodata first) top left) sources d).
  rewrite fold_paint_get, da_get_replicate by lia.
  simpl. rewrite !Z2Nat.id by lia.
  replace (top + (r - top)) with r by lia.
  replace (left + (c - left)) with c by lia.
  reflexivity.
Qed.

(** Once a pixel holds a value other than the fill value, no later source
    changes it. *)
Lemma paint_first_settled nd r c sources : ∀ merged,
  merged ≠ nd →
  fold_left (paint_pixel method_first nd r c) sources merged = merged.
Proof.
  induction sources as [|f sources IH]; intros merged Hne; simpl; [reflexivity|].
  assert (paint_pixel method_first nd r c merged f = merged) as ->.
  { unfold paint_pixel, copyto, copy_first.
    destruct (frame_get f r c); [|reflexivity].
    apply Z.eqb_neq in Hne. rewrite Hne. reflexivity. }
  apply IH, Hne.
Qed.

Lemma paint_first_fold nd r c : ∀ sources,
  Forall (fun f => nodata f = nd) sources →
  fold_left (paint_pixel method_first nd r c) sources nd
  = first_valid_of sources r c nd.
Proof.
  unfold first_valid_of.
  induction sources as [|f sources IH]; intros Hall; simpl; [reflexivity|].
  pose proof (List.Forall_inv Hall) as Hf.
  apply List.Forall_inv_tail in Hall.
  unfold paint_pixel at 2. unfold valid_at, copyto, copy_first.
  rewrite Hf, Z.eqb_refl.
  destruct (frame_get f r c) as [v|] eqn:Hv; simpl.
  - destruct (v =? nd) eqn:E; simpl.
    + apply IH, Hall.
    + rewrite paint_first_settled by (apply Z.eqb_neq, E).
      rewrite Hv. reflexivity.
  - apply IH, Hall.
Qed.

(** X12: merging any number of sources that share their nodata value is
    first-valid-wins at every pixel: inside the extent of the mosaic a
    pixel holds the value of the first source, in the order supplied, that
    is valid there, and the nodata value when no source is. *)
Theorem merge_takes_first_valid_source first rest r c :
  let sources := first :: rest in
  Forall (fun f => nodata f = nodata first) rest →
  union_top sources (row_off first) <= r
    < union_bottom sources (row_off first + height first) →
  union_left sources (col_off first) <= c
    < union_right sources (col_off first + width first) →
  ∃ m, merge sources = Ok m
    ∧ mosaic_get m r c = Some (first_valid_of sources r c (nodata first)).
Proof.
  intros sources Hnd Hr Hc.
  destruct (merge_with_get method_first first rest r c Hr Hc)
    as (m & Hm & _ & _ & Hget).
  exists m. split; [exact Hm|].
  rewrite Hget. f_equal. apply paint_first_fold.
  constructor; [reflexivity | exact Hnd].
Qed.

Lemma merge_takes_first_valid_source_witness :
  ∃ m, merge [tile_A; tile_B; tile_C] = Ok m
    ∧ mosaic_get m 0 2 = Some (first_valid_of [tile_A; tile_B; tile_C] 0 2 255).
Proof.
  apply (merge_takes_first_valid_source tile_A [tile_B; tile_C] 0 2).
  - repeat constructor.
  - vm_compute. split; [discriminate | reflexivity].
  - vm_compute. split; [discriminate | reflexivity].
Defined.

Lemma paint_pixel_fill_covered f r c v :
  frame_get f r c = Some v →
  paint_pixel method_first (nodata f) r c (nodata f) f = v.
Proof.
  intros Hv. unfold paint_pixel, copyto, copy_first. rewrite Hv, Z.eqb_refl.
  simpl. destruct (v =? nodata f) eqn:E; simpl; [|reflexivity].
  apply Z.eqb_eq in E. congruence.
Qed.

Lemma frame_get_inside f (i j : nat) :
  frame_get f (row_off f + Z.of_nat i) (col_off f + Z.of_nat j)
  = da_get (pixels f) i j.
Proof.
  unfold frame_get.
  replace (row_off f <=? row_off f + Z.of_nat i) with true
    by (symmetry; apply Z.leb_le; lia).
  replace (col_off f <=? col_off f + Z.of_nat j) with true
    by (symmetry; apply Z.leb_le; lia).
  simpl. f_equal; lia.
Qed.

(** X13: merging a single rectangular source gives it back: the mosaic has
    the position and exactly the pixels of the source, nodata pixels
    included.  The branch of the notebook that reads a single file directly
    instead of merging it yields the same raster. *)
Theorem merge_single_source f :
  rectangular (pixels f) →
  merge [f] = Ok {| m_row_off := row_off f; m_col_off := col_off f;
                    m_pixels := pixels f |}.
Proof.
  intros Hrect. unfold merge, merge_with.
  unfold union_top, union_left, union_bottom, union_right. simpl.
  rewrite !Z.min_id, !Z.max_id.
  replace (row_off f + height f - row_off f) with (height f) by lia.
  replace (col_off f + width f - col_off f) with (width f) by lia.
  unfold height, width. rewrite !Nat2Z.id.
  f_equal. f_equal.
  unfold rectangular in Hrect. rewrite List.Forall_forall in Hrect.
  set (W := snd (shape (pixels f))) in *.
  apply list_eq. intros i. unfold paint.
  rewrite list_lookup_imap.
  destruct (pixels f !! i) as [row|] eqn:Hrow.
  - assert (length row = W) as Hlen.
    { apply Hrect, list_elem_of_In, list_elem_of_lookup. eauto. }
    rewrite lookup_replicate_2 by (apply (lookup_lt_Some _ _ _ Hrow)).
    simpl. f_equal. apply list_eq. intros j.
    rewrite list_lookup_imap.
    destruct (row !! j) as [v|] eqn:Hv.
    + rewrite lookup_replicate_2 by (rewrite <- Hlen; apply (lookup_lt_Some _ _ _ Hv)).
      simpl. f_equal. apply paint_pixel_fill_covered.
      rewrite frame_get_inside. unfold da_get. rewrite Hrow. exact Hv.
    + apply lookup_ge_None in Hv.
      rewrite (proj1 (lookup_replicate_None _ _ _)) by lia. reflexivity.
  - apply lookup_ge_None in Hrow.
    rewrite (proj1 (lookup_replicate_None _ _ _)) by exact Hrow. reflexivity.
Qed.

Lemma merge_single_source_witness :
  merge [tile_A] = Ok {| m_row_off := 0; m_col_off := 0; m_pixels := [[10; 11]] |}.
Proof.
  apply (merge_single_source tile_A). repeat constructor.
Defined.

(** ** The area of interest *)

(** make_bbox uses the first two coordinates of the point only, whatever
    the arithmetic: further coordinates are ignored, a point of one
    coordinate gives a tuple of two numbers and an empty point an empty
    tuple. *)
Lemma make_bbox_uses_two_coordinates {R : Type} `{Num R} (dx dy : R) :
  (∀ x y rest, make_bbox (x :: y :: rest) dx dy = make_bbox [x; y] dx dy)
  ∧ (∀ x y rest, length (make_bbox (x :: y :: rest) dx dy) = 4%nat)
  ∧ (∀ x, length (make_bbox [x] dx dy) = 2%nat)
  ∧ make_bbox [] dx dy = [].
Proof.
  assert (∀ x y rest, make_bbox (x :: y :: rest) dx dy = make_bbox [x; y] dx dy)
    as Hcut by (intros x y [|z rest]; reflexivity).
  split; [exact Hcut|]. split; [intros x y rest; rewrite Hcut; reflexivity|].
  split; [intros x; reflexivity | reflexivity].
Qed.

(** For comparison, in exact arithmetic: make_bbox((x, y), dx, dy) is the
    tuple (x - dx/2, y - dy/2, x + dx/2, y + dy/2) of its docstring, its
    sides measure dx and dy, and the centre that plot_bbox draws is the
    point (x, y).  The notebook computes in binary64, where none of this
    is exact (see the example that follows). *)
Lemma make_bbox_center_exact (x y dx dy : Q) :
  ∃ x_lo y_lo x_hi y_hi,
    make_bbox [x; y] dx dy = [x_lo; y_lo; x_hi; y_hi]
    ∧ (x_lo == x - dx / 2 ∧ y_lo == y - dy / 2
       ∧ x_hi == x + dx / 2 ∧ y_hi == y + dy / 2)%Q
    ∧ (x_hi - x_lo == dx ∧ y_hi - y_lo == dy)%Q
    ∧ (fst (bbox_center (make_bbox [x; y] dx dy)) == x
       ∧ snd (bbox_center (make_bbox [x; y] dx dy)) == y)%Q.
Proof.
  eexists _, _, _, _. split; [reflexivity|].
  unfold bbox_center, py_sum. simpl.
  change (inject_Z 2) with 2%Q. change (inject_Z 1) with 1%Q.
  change (inject_Z 0) with 0%Q. change (inject_Z (-1)) with (-1)%Q.
  repeat split; field.
Qed.

(** The area of interest of the notebook, make_bbox((-16.0913, 16.528),
    0.1, 0.1), in binary64: the box is (-16.1413, 16.477999999999998,
    -16.0413, 16.578) and its width is 0.10000000000000142, not 0.1. *)
Example make_bbox_notebook_call :
  make_bbox [(-0x1.0175f6fd21ff3p+4)%float; 0x1.0872b020c49bap+4%float]
            0x1.999999999999ap-4%float 0x1.999999999999ap-4%float
  = [(-0x1.0242c3c9eeccp+4)%float; 0x1.07a5e353f7cedp+4%float;
     (-0x1.00a92a3055326p+4)%float; 0x1.093f7ced91687p+4%float]
  ∧ PrimFloat.sub (-0x1.00a92a3055326p+4)%float (-0x1.0242c3c9eeccp+4)%float
    = 0x1.9999999999ap-4%float
  ∧ 0x1.9999999999ap-4%float ≠ 0x1.999999999999ap-4%float.
Proof.
  split; [vm_compute; reflexivity|]. split; [vm_compute; reflexivity|].
  intros E. apply (f_equal Prim2SF) in E. vm_compute in E. discriminate E.
Qed.

(** ** The damaged area *)

Lemma da_flatten_map (g : Z → Z) (data : DataArray) :
  da_flatten (List.map (List.map g) data) = List.map g (da_flatten data).
Proof.
  unfold da_flatten. induction data as [|row data IH]; simpl; [reflexivity|].
  rewrite IH, List.map_app. reflexivity.
Qed.

(** The sum of the pixels kept by the mask is the pixel value times the
    number of pixels that hold it. *)
Lemma da_sum_where_eq (slice : DataArray) (v : Z) :
  da_sum (da_where_eq slice v 0) = v * Z.of_nat (count_eq slice v).
Proof.
  unfold da_sum, da_where_eq, count_eq. rewrite da_flatten_map.
  induction (da_flatten slice) as [|p l IH]; simpl; [lia|].
  rewrite IH. destruct (p =? v) eqn:E; simpl length.
  - apply Z.eqb_eq in E. subst p. lia.
  - lia.
Qed.

(** X15: for any non-zero pixel_val, the integer that the cell sums for
    a time slice, sum(where(slice == pixel_val, 0)), is exactly pixel_val
    times the number of pixels of the slice that hold pixel_val, and the
    damaged area reported for the slice is that integer multiplied by the
    conversion factor (30/1000)**2 / pixel_val, in the arithmetic of the
    cell, binary64 included: there is one area per slice, in the order of
    the slices, and it depends on the slice through its count of pixels
    only.  With pixel_val 0 the conversion factor divides by zero and
    nothing is computed. *)
Theorem damage_area_of_pixel_count {R : Type} `{Num R}
    (stack : list DataArray) (pixel_val : Z) :
  (pixel_val ≠ 0 →
   ∃ (factor : R) (areas : list R),
     conversion_factor pixel_val = Some factor
     ∧ damage_area stack pixel_val = Some areas
     ∧ length areas = length stack
     ∧ ∀ k slice, stack !! k = Some slice →
         da_sum (da_where_eq slice pixel_val 0)
         = pixel_val * Z.of_nat (count_eq slice pixel_val)
         ∧ areas !! k
           = Some (nmul (of_int (pixel_val * Z.of_nat (count_eq slice pixel_val)))
                        factor))
  ∧ (pixel_val = 0 → damage_area (R := R) stack pixel_val = None).
Proof.
  split.
  - intros Hv. unfold damage_area, conversion_factor.
    apply Z.eqb_neq in Hv as Hv'. rewrite Hv'. simpl.
    eexists _, _. split; [reflexivity|]. split; [reflexivity|]. split.
    + rewrite !List.length_map. reflexivity.
    + intros k slice Hk. split; [apply da_sum_where_eq|].
      rewrite List.map_map, map_lookup, Hk. simpl.
      rewrite da_sum_where_eq. reflexivity.
  - intros ->. reflexivity.
Qed.

Lemma damage_area_of_pixel_count_witness :
  ∃ (factor : float) (areas : list float),
    conversion_factor 6 = Some factor
    ∧ damage_area [[[6; 0]; [6; 6]]; [[0; 0]; [5; 6]]] 6 = Some areas
    ∧ length areas = length [[[6; 0]; [6; 6]]; [[0; 0]; [5; 6]]]
    ∧ ∀ k slice, [[[6; 0]; [6; 6]]; [[0; 0]; [5; 6]]] !! k = Some slice →
        da_sum (da_where_eq slice 6 0) = 6 * Z.of_nat (count_eq slice 6)
        ∧ areas !! k
          = Some (nmul (of_int (6 * Z.of_nat (count_eq slice 6))) factor).
Proof.
  apply (proj1 (damage_area_of_pixel_count (R := float)
                  [[[6; 0]; [6; 6]]; [[0; 0]; [5; 6]]] 6)).
  discriminate.
Defined.

(** In binary64 the areas of a slice with three pixels and of a slice
    with one pixel of value 6 are 0.0026999999999999997 and
    0.0009 square kilometres. *)
Example damage_area_binary64 :
  damage_area [[[6; 0]; [6; 6]]; [[0; 0]; [5; 6]]] 6
  = Some [0x1.61e4f765fd8adp-9%float; 0x1.d7dbf487fcb92p-11%float].
Proof. vm_compute. reflexivity. Qed.

(** ** The round trip with the default start, on the notebook's codes *)

Lemma relabel_round_trip_default_start_witness :
  da_get [[0; 1; 0]; [3; 4; 2]] 1 1
    = dict_get [(0, 0); (1, 1); (2, 2); (252, 3); (253, 4); (254, 5)] 253
  ∧ da_get (dict_apply
              (dict_inverse [(0, 0); (1, 1); (2, 2); (252, 3); (253, 4); (254, 5)])
              [[0; 1; 0]; [3; 4; 2]]) 1 1
    = Some 253.
Proof.
  apply (relabel_round_trip_default_start
           [[0; 1; 255]; [252; 253; 2]] [0; 1; 2; 252; 253; 254; 255] 255 0 true
           [[0; 1; 0]; [3; 4; 2]]
           [(0, 0); (1, 1); (2, 2); (252, 3); (253, 4); (254, 5)]).
  - discriminate.
  - repeat (apply NoDup_cons; split; [rewrite list_elem_of_In; simpl; lia|]).
    apply NoDup_nil. exact I.
  - vm_compute. reflexivity.
  - reflexivity.
  - simpl. tauto.
Defined.
